(** * cased-node: the asynchronous resource-resolution layer

    A shallow embedding of the request dispatcher ([request]), the policy-key
    resolver ([getPolicyKey]), the paged cursor ([requestPage]) and the two
    poll loops ([ExportJob.settled] for src/export.ts, [Session.settled]) of the cased-node client,
    followed by the properties of that layer.

    Conventions of the embedding.
    - A value produced by [JSON.parse] is a [json]; JavaScript's [null] is
      [JNull] and [undefined] is the [None] of an [option json].  Numbers are
      integers (page indices, counts, status codes); JavaScript's arithmetic
      on them is exact between [-2^53] and [2^53], and what is proved of a
      counter says so.  A string is held as the bytes of its UTF-8 form.  An
      object lists its properties in enumeration order, one entry per key.
    - An asynchronous function is a computation in the monad [M]: it threads
      the [World] (the remote server, the process-wide configuration, the
      environment and the log of what was sent and slept) and finishes with
      an [outcome].
    - What Node supplies (the transport, [JSON.parse], [JSON.stringify],
      [querystring.stringify], the [URL] class) is the interface [Host]. *)

From Stdlib Require Import ZArith List Lia.
From stdpp Require Import base option strings list gmap pretty.

Open Scope Z_scope.
Set Warnings "-register-all".

(** ** JSON values and the JavaScript operations applied to them *)

Inductive json : Type :=
  | JNull
  | JBool (b : bool)
  | JNum (n : Z)
  | JStr (s : string)
  | JArr (items : list json)
  | JObj (props : list (string * json)).

(** A plain object: properties in enumeration order. *)
Abbreviation obj := (list (string * json)).

Module Js.

(** [o[k]] on a plain object. *)
Fixpoint get (o : obj) (k : string) : option json :=
  match o with
  | [] => None
  | (k', v) :: rest => if String.eqb k k' then Some v else get rest k
  end.

(** [o[k] = v]: overwrite in place, or append a new property. *)
Fixpoint set (o : obj) (k : string) (v : json) : obj :=
  match o with
  | [] => [(k, v)]
  | (k', v') :: rest =>
      if String.eqb k k' then (k', v) :: rest else (k', v') :: set rest k v
  end.

(** [{...o, ...extra}]. *)
Definition spread (o extra : obj) : obj :=
  fold_left (fun acc kv => set acc (fst kv) (snd kv)) extra o.

(** Truthiness of a value ([undefined] is [None]). *)
Definition truthy (v : option json) : bool :=
  match v with
  | None | Some JNull => false
  | Some (JBool b) => b
  | Some (JNum n) => negb (n =? 0)
  | Some (JStr s) => negb (String.eqb s "")
  | Some (JArr _) | Some (JObj _) => true
  end.

(** [v === s] for a string literal [s], as a [case] of a [switch] tests it. *)
Definition equals (v : option json) (s : string) : bool :=
  match v with
  | Some (JStr s') => String.eqb s' s
  | _ => false
  end.

(** [Array.prototype.join]. *)
Fixpoint join (sep : string) (parts : list string) : string :=
  match parts with
  | [] => ""
  | [p] => p
  | p :: rest => p +:+ sep +:+ join sep rest
  end.

(** [String(v)], as a template literal applies it.  Inside an array, [null]
    prints as the empty string; a number prints in decimal, as JavaScript
    prints an integer below 10^21. *)
Fixpoint to_string (v : json) : string :=
  match v with
  | JNull => "null"
  | JBool true => "true"
  | JBool false => "false"
  | JNum n => pretty n
  | JStr s => s
  | JArr items =>
      join "," (map (fun x => match x with JNull => "" | _ => to_string x end) items)
  | JObj _ => "[object Object]"
  end.

(** The one-character strings of a string, for indexing and [for ... in]. *)
Fixpoint chars (s : string) : list string :=
  match s with
  | EmptyString => []
  | String c rest => String c EmptyString :: chars rest
  end.

(** The [(key, value)] pairs a [for (const name in v)] loop visits, with
    [v[name]] alongside. *)
Definition for_in (v : json) : obj :=
  match v with
  | JObj props => props
  | JArr items => imap (fun i x => (pretty i, x)) items
  | JStr s => imap (fun i c => (pretty i, JStr c)) (chars s)
  | JNull | JBool _ | JNum _ => []
  end.

(** The UTF-16 code units that the character begun by a byte takes: one for
    a character of one, two or three bytes, two (a surrogate pair) for a
    character of four bytes, none for a continuation byte. *)
Definition units (b : Ascii.ascii) : nat :=
  let n := Ascii.nat_of_ascii b in
  if (n <? 128)%nat then 1%nat
  else if (n <? 192)%nat then 0%nat
  else if (n <? 240)%nat then 1%nat
  else 2%nat.

(** [s.length]: the length of a string in UTF-16 code units. *)
Fixpoint length (s : string) : nat :=
  match s with
  | EmptyString => 0%nat
  | String b rest => (units b + length rest)%nat
  end.

(** The properties of [Object.prototype], which every plain object
    inherits. *)
Definition Object_prototype : list string :=
  ["constructor"; "__defineGetter__"; "__defineSetter__"; "hasOwnProperty";
   "__lookupGetter__"; "__lookupSetter__"; "isPrototypeOf"; "propertyIsEnumerable";
   "toString"; "valueOf"; "__proto__"; "toLocaleString"].

(** What a plain object answers for a key it has no property of its own
    for: [undefined], unless [Object.prototype] has the key.  The inherited
    member (a built-in function, or for [__proto__] the prototype itself) is
    truthy and is no string; it is held as the string that a template
    literal makes of it. *)
Definition inherited (k : string) : option string :=
  if String.eqb k "__proto__" then Some "[object Object]"
  else if String.eqb k "constructor" then Some "function Object() { [native code] }"
  else if existsb (String.eqb k) Object_prototype
       then Some ("function " +:+ k +:+ "() { [native code] }")
  else None.

(** [d[k]] on a plain object used as a dictionary of strings: the property
    of its own, else the inherited member. *)
Definition index (d : gmap string string) (k : string) : option string :=
  match d !! k with
  | Some v => Some v
  | None => inherited k
  end.

End Js.

(** ** Errors and outcomes *)

Inductive Error : Type :=
  | AuthenticationError (message : string)
  | APIError (message : string)
  | ExportError (message : string)
  | ReasonRequiredError
  | AssertionError (message : string)
  | TypeError
  | SyntaxError.

(** How a computation ends: it returns, it throws, it meets a payload outside
    the TypeScript type it is declared with ([IllTyped]; what the untyped
    runtime does there is not modelled), or the bound given to an unbounded
    loop is used up before the loop ends ([OutOfFuel]). *)
Inductive outcome (A : Type) : Type :=
  | Return (a : A)
  | Throw (e : Error)
  | IllTyped
  | OutOfFuel.

Arguments Return {A} a.
Arguments Throw {A} e.
Arguments IllTyped {A}.
Arguments OutOfFuel {A}.

(** ** Configuration (src/config.ts) *)

Abbreviation URL := string (only parsing).

Record Config : Type := mkConfig {
  name : option string;
  apiBaseURL : URL;
  publishBaseURL : URL;
  apiVersion : Z;
  policyKey : option string;
  policyKeys : gmap string string;
  publishKey : option string;
  guardApplicationKey : option string;
  guardUserToken : option string;
  guardDenyIfUnreachable : bool
}.

Record ConfigOverrides : Type := mkOverrides {
  o_name : option string;
  o_apiBaseURL : option URL;
  o_publishBaseURL : option URL;
  o_apiVersion : option Z;
  o_policyKey : option string;
  o_publishKey : option string;
  o_guardApplicationKey : option string;
  o_guardUserToken : option string
}.

(** [{}] as a [ConfigOverrides]. *)
Definition no_overrides : ConfigOverrides :=
  mkOverrides None None None None None None None None.

(** A field of [{...globalConfig, ...options.config}] that is nullable in
    [Config] and optional in [ConfigOverrides]. *)
Definition override {A} (o : option A) (g : option A) : option A :=
  match o with Some x => Some x | None => g end.

(** [{ ...globalConfig, ...options.config }]. *)
Definition merge_config (g : Config) (o : ConfigOverrides) : Config :=
  {| name := override (o_name o) (name g);
     apiBaseURL := default (apiBaseURL g) (o_apiBaseURL o);
     publishBaseURL := default (publishBaseURL g) (o_publishBaseURL o);
     apiVersion := default (apiVersion g) (o_apiVersion o);
     policyKey := override (o_policyKey o) (policyKey g);
     policyKeys := policyKeys g;
     publishKey := override (o_publishKey o) (publishKey g);
     guardApplicationKey := override (o_guardApplicationKey o) (guardApplicationKey g);
     guardUserToken := override (o_guardUserToken o) (guardUserToken g);
     guardDenyIfUnreachable := guardDenyIfUnreachable g |}.

(** [process.env]. *)
Abbreviation Env := (gmap string string).

(** [if (s)] for a [string | undefined | null]. *)
Definition nonempty (s : option string) : option string :=
  match s with
  | Some k => if String.eqb k "" then None else Some k
  | None => None
  end.

(** [getPolicyKey(config)] with [process.env] as [env].  The result is
    [string | null]; a member that [config.policyKeys] inherits, which the
    lookup by name can reach, is returned as [Js.index] holds it. *)
Definition getPolicyKey (env : Env) (config : Config) : option string :=
  let named :=
    match nonempty (name config) with
    | Some n =>
        match nonempty (Js.index (policyKeys config) n) with
        | Some key => Some key
        | None => nonempty (env !! ("CASED_" +:+ n +:+ "_POLICY_KEY"))
        end
    | None => None
    end in
  match named with
  | Some key => Some key
  | None =>
      match policyKey config with
      | Some key => Some key
      | None => nonempty (env !! "CASED_POLICY_KEY")
      end
  end.

(** ** What Node supplies *)

Inductive Method : Type := GET | POST | PUT | DELETE.

Module Https.
(** The [opts] object handed to [httpsRequest]. *)
Record RequestOptions : Type := mk {
  host : string;
  path : string;
  method : Method;
  headers : list (string * string)
}.
End Https.

(** The part of an [IncomingMessage] that [request] reads, with the body. *)
Record Response : Type := mkResponse {
  statusCode : Z;
  headers : gmap string string;
  body : string
}.

Class Host : Type := {
  (** The default export of [./version]. *)
  version : string;
  (** [JSON.parse]; [None] when it throws [SyntaxError]. *)
  JSON_parse : string -> option json;
  JSON_stringify : obj -> string;
  querystring_stringify : obj -> string;
  (** [base.hostname]. *)
  URL_hostname : URL -> string;
  (** [url.pathname + url.search] for [url = new URL(path, base)], after
      [url.search = s] when the last argument is [Some s]. *)
  URL_path : string -> URL -> option string -> string;
  (** The remote end: a state and its answer to one call of [httpsRequest]. *)
  Srv : Type;
  httpsRequest : Srv -> Https.RequestOptions -> option string -> Response * Srv
}.

(** ** The monad of asynchronous computations *)

Inductive Event : Type :=
  | EvRequest (opts : Https.RequestOptions) (postData : option string)
  | EvSleep (delay : Z)
  | EvItem (item : json).

Section Runtime.
Context `{Host}.

Record World : Type := mkWorld {
  server : Srv;
  globalConfig : Config;
  env : Env;
  log : list Event
}.

Definition M (A : Type) : Type := World -> outcome A * World.

Definition ret {A} (a : A) : M A := fun w => (Return a, w).

Definition bind {A B} (m : M A) (k : A -> M B) : M B := fun w =>
  match m w with
  | (Return a, w') => k a w'
  | (Throw e, w') => (Throw e, w')
  | (IllTyped, w') => (IllTyped, w')
  | (OutOfFuel, w') => (OutOfFuel, w')
  end.

Definition throw {A} (e : Error) : M A := fun w => (Throw e, w).
Definition ill_typed {A} : M A := fun w => (IllTyped, w).
Definition out_of_fuel {A} : M A := fun w => (OutOfFuel, w).

Definition emit (e : Event) (w : World) : World :=
  {| server := server w; globalConfig := globalConfig w; env := env w;
     log := log w ++ [e] |}.

(** [await httpsRequest(opts, postData)]. *)
Definition send (opts : Https.RequestOptions) (postData : option string) : M Response :=
  fun w =>
    let '(response, s) := httpsRequest (server w) opts postData in
    (Return response,
     {| server := s; globalConfig := globalConfig w; env := env w;
        log := log w ++ [EvRequest opts postData] |}).

(** [await sleep(delay)] (src/utils.ts, src/export.ts). *)
Definition sleep (delay : Z) : M unit := fun w => (Return tt, emit (EvSleep delay) w).

(** The consumer of an iterator receives [item]. *)
Definition observe (item : json) : M unit := fun w => (Return tt, emit (EvItem item) w).

(** [assert(b)]. *)
Definition assert (b : bool) : M unit :=
  if b then ret tt else throw (AssertionError "").

End Runtime.

(** [M] is a monad in the sense of stdpp, which gives the notations
    [x ← m; k] and [m ;; k] for sequencing. *)
#[global] Instance M_ret `{Host} : MRet M := @ret _.
#[global] Instance M_bind `{Host} : MBind M := fun A B k m => bind m k.

(** [v.k] on a value [v] other than [null], for a property [k] that no
    built-in prototype defines (so not [length]): a value that is not a plain
    object has no such property. *)
Definition property (v : json) (k : string) : option json :=
  match v with
  | JObj o => Js.get o k
  | JNull | JBool _ | JNum _ | JStr _ | JArr _ => None
  end.

(** [v.k], and [const { k } = v]: reading a property of [null] throws. *)
Definition member (v : json) (k : string) : outcome (option json) :=
  match v with
  | JNull => Throw TypeError
  | _ => Return (property v k)
  end.

(** ** Errors raised from a response (src/errors.ts) *)

(** The message that the constructor of [APIError] computes from a
    [response] other than [null]. *)
Definition APIError_message (response : json) : string :=
  let message := property response "message" in
  if Js.truthy message then from_option Js.to_string "" message
  else
    let messages := property response "messages" in
    if Js.truthy messages then
      Js.join ", "
        (map (fun kv => fst kv +:+ " " +:+ Js.to_string (snd kv))
             (from_option Js.for_in [] messages))
    else "unknown API error".

(** What [throw new APIError(response)] throws: the [APIError], or the
    [TypeError] of the constructor reading [response.message] off [null]. *)
Definition new_APIError (response : json) : Error :=
  match response with
  | JNull => TypeError
  | _ => APIError (APIError_message response)
  end.

(** ** The request dispatcher (src/client.ts) *)

Inductive BaseURL : Type := api | publish | cli.

Record RequestOptions : Type := mkOptions {
  method : Method;
  baseURL : option BaseURL;
  path : option string;
  params : obj;
  config : ConfigOverrides
}.

Definition is_GET (m : Method) : bool :=
  match m with GET => true | _ => false end.

(** The three [AuthenticationError]s that [request] throws. *)
Definition no_publish_key : Error :=
  AuthenticationError
    ("No Publish API key provided. " +:+
     "Set your API key using config.publishKey = <API-KEY>, or supply the key with the request. " +:+
     "See https://docs.cased.com for more information.").

Definition no_cli_key : Error :=
  AuthenticationError
    ("No CLI API key provided. " +:+
     "Set your API key using config.guardApplicationKey = <API-KEY>, or supply the key with the request. " +:+
     "See https://docs.cased.com for more information.").

Definition no_policy_key : Error :=
  AuthenticationError
    ("No API key provided. " +:+
     "Set your API key using config.policyKey = <POLICY-KEY>, or supply the key with the request. " +:+
     "See https://docs.cased.com for more information.").

(** The API key of a call and its parameters after the [user_token] backfill
    of the CLI scope (the [if] chain that opens [request]). *)
Definition credential (env : Env) (config : Config) (options : RequestOptions)
  : outcome (string * obj) :=
  match baseURL options with
  | Some publish =>
      match nonempty (publishKey config) with
      | None => Throw no_publish_key
      | Some key => Return (key, params options)
      end
  | Some cli =>
      match nonempty (guardApplicationKey config) with
      | None => Throw no_cli_key
      | Some key =>
          Return (key,
            if Js.truthy (Js.get (params options) "user_token") then params options
            else Js.set (params options) "user_token"
                   (if Js.truthy (Js.get (params options) "userToken")
                    then default JNull (Js.get (params options) "userToken")
                    else from_option JStr JNull (guardUserToken config)))
      end
  | Some api | None =>
      match nonempty (getPolicyKey env config) with
      | None => Throw no_policy_key
      | Some key => Return (key, params options)
      end
  end.

(** The JSON content type that [request] compares the header with. *)
Definition JSON_content_type : string := "application/json; charset=utf-8".

(** The statuses whose payload is handed back to the caller. *)
Definition passthrough_status (c : Z) : bool :=
  (c =? 200) || (c =? 201) || (c =? 202) || (c =? 204) || (c =? 400) || (c =? 404).

Section Client.
Context `{Host}.

(** The [opts] and [postData] that [request] hands to the transport.  The
    [URL] constructor and [JSON.stringify] are taken to return: the path is
    one that resolves against the base, and the parameters are a [json]
    tree. *)
Definition outgoing (config : Config) (options : RequestOptions)
    (apiKey : string) (params : obj) : Https.RequestOptions * option string :=
  let base : URL :=
    match baseURL options with
    | Some publish => publishBaseURL config
    | _ => apiBaseURL config
    end in
  let search :=
    if is_GET (method options) then Some (querystring_stringify params) else None in
  let headers :=
    [("Accept", "application/json");
     ("Authorization", "Bearer " +:+ apiKey);
     ("User-Agent", "cased-node/" +:+ version)] in
  let postData :=
    if is_GET (method options) then None else Some (JSON_stringify params) in
  let headers :=
    match postData with
    | Some data =>
        headers ++ [("Content-Type", "application/json; charset=utf-8");
                    ("Content-Length", pretty (String.length data))]
    | None => headers
    end in
  (Https.mk (URL_hostname base) (URL_path (default "" (path options)) base search)
            (method options) headers,
   postData).

(** [data] after the test on the [content-type] header. *)
Definition response_data (response : Response) : outcome json :=
  if decide (headers response !! "content-type" = Some JSON_content_type) then
    match JSON_parse (body response) with
    | Some data => Return data
    | None => Throw SyntaxError
    end
  else Return JNull.

(** The [switch] on [response.statusCode]. *)
Definition by_status (response : Response) (data : json) : outcome json :=
  let c := statusCode response in
  if passthrough_status c then Return data
  else if c =? 302 then
    Return (JObj (from_option (fun l => [("location", JStr l)]) []
                              (headers response !! "location")))
  else if (c =? 401) || (c =? 417) then Throw (new_APIError data)
  else Throw (AssertionError ("unhandled status code: " +:+ pretty c)).

(** What [request] makes of the response it awaited. *)
Definition handle (response : Response) : outcome json :=
  match response_data response with
  | Return data => by_status response data
  | Throw e => Throw e
  | IllTyped => IllTyped
  | OutOfFuel => OutOfFuel
  end.

Definition lift {A} (o : outcome A) : M A := fun w => (o, w).

(** [request(options)]. *)
Definition request (options : RequestOptions) : M json := fun w =>
  let config := merge_config (globalConfig w) (config options) in
  match credential (env w) config options with
  | Return (apiKey, params) =>
      let '(opts, postData) := outgoing config options apiKey params in
      (response ← send opts postData; lift (handle response)) w
  | Throw e => (Throw e, w)
  | IllTyped => (IllTyped, w)
  | OutOfFuel => (OutOfFuel, w)
  end.

End Client.

(** ** Pagination (src/client.ts) *)

(** [PageResponse<T>], with [T] left as [json]. *)
Record PageResponse : Type := mkPageResponse {
  results : list json;
  total_count : Z;
  total_pages : Z
}.

(** [RequestOptions & PaginationOptions]. *)
Record PageOptions : Type := mkPageOptions {
  options : RequestOptions;
  page : option Z;
  perPage : option Z
}.

(** [{ ...options, page: p }]. *)
Definition with_page (o : PageOptions) (p : Z) : PageOptions :=
  {| options := options o; page := Some p; perPage := perPage o |}.

(** [n || d] for a [number | undefined]. *)
Definition or_default (n : option Z) (d : Z) : Z :=
  match n with
  | Some v => if v =? 0 then d else v
  | None => d
  end.

(** The object [requestPage] returns: the variables its closures capture. *)
Record Page : Type := mkPage {
  page_options : PageOptions;
  page_index : Z;
  response : PageResponse
}.

Definition iterator (pg : Page) : list json := results (response pg).
Definition totalCount (pg : Page) : Z := total_count (response pg).
Definition pageCount (pg : Page) : Z := total_pages (response pg).

(** The state of the generator [asyncIterator()] while it is suspended: at
    the test of the outer loop with counter [p] (before the first [next()]),
    or inside the inner loop with the items still to be yielded. *)
Inductive Cursor : Type :=
  | AtPage (p : Z)
  | InPage (p : Z) (rest : list json).

Section Pagination.
Context `{Host}.

(** A field that [PageResponse] declares as a number: absent it reads
    [undefined]; present with another type it is outside the model. *)
Definition number_field (o : obj) (k : string) : M (option Z) :=
  match Js.get o k with
  | None => ret None
  | Some (JNum n) => ret (Some n)
  | Some _ => ill_typed
  end.

(** The three assertions of [requestPage] on the payload of [request]. *)
Definition checked (payload : json) : M PageResponse :=
  match payload with
  | JNull => throw TypeError
  | _ =>
      let o := match payload with JObj o => o | _ => [] end in
      count ← number_field o "total_count";
      assert (from_option (fun n => 0 <=? n) false count);;
      pages ← number_field o "total_pages";
      assert (from_option (fun n => 0 <? n) false pages);;
      match Js.get o "results" with
      | None | Some JNull => throw TypeError
      | Some (JArr items) =>
          assert (0 <=? Z.of_nat (length items));;
          ret (mkPageResponse items (default 0 count) (default 0 pages))
      | Some _ => ill_typed
      end
  end.

(** The options that [requestPage] hands to [request]: those it was given,
    with [page] and [per_page] placed ahead of the caller's parameters. *)
Definition page_request (o : PageOptions) : RequestOptions :=
  let page := or_default (page o) 1 in
  let perPage := or_default (perPage o) 25 in
  mkOptions (method (options o)) (baseURL (options o)) (path (options o))
    (Js.spread [("page", JNum page); ("per_page", JNum perPage)]
               (params (options o)))
    (config (options o)).

(** [requestPage(options)]. *)
Definition requestPage (o : PageOptions) : M Page :=
  let page := or_default (page o) 1 in
  payload ← request (page_request o);
  response ← checked payload;
  ret (mkPage o page response).

Definition nextPage (pg : Page) : M (option Page) :=
  if page_index pg >=? total_pages (response pg) then ret None
  else
    following ← requestPage (with_page (page_options pg) (page_index pg + 1));
    ret (Some following).

Definition previousPage (pg : Page) : M (option Page) :=
  if page_index pg <=? 1 then ret None
  else
    preceding ← requestPage (with_page (page_options pg) (page_index pg - 1));
    ret (Some preceding).

Definition firstPage (pg : Page) : M Page :=
  requestPage (with_page (page_options pg) 1).

Definition lastPage (pg : Page) : M Page :=
  requestPage (with_page (page_options pg) (total_pages (response pg))).

(** The generator runs the outer loop from its test with counter [p] until
    an item is yielded or the loop ends; [n] is the number of iterations
    left, [total_pages - p].  The counter is an integer that [p++] takes to
    [p + 1]: that is the loop of the source for as long as the counter stays
    below [2^53] (see [exact_counter]); beyond, [p++] no longer grows a
    number and the loop is outside this definition. *)
Fixpoint advance (pg : Page) (n : nat) (p : Z) : M (option (json * Cursor)) :=
  match n with
  | O => ret None
  | S n' =>
      inner ← requestPage (with_page (page_options pg) p);
      match iterator inner with
      | item :: rest => ret (Some (item, InPage p rest))
      | [] => advance pg n' (p + 1)
      end
  end.

(** [pg[Symbol.asyncIterator]()]. *)
Definition asyncIterator (pg : Page) : Cursor := AtPage (page_index pg).

(** One call of [next()] on the generator: the item yielded with the state
    to resume from, or [None] when the generator returns. *)
Definition next (pg : Page) (c : Cursor) : M (option (json * Cursor)) :=
  match c with
  | AtPage p => advance pg (Z.to_nat (total_pages (response pg) - p)) p
  | InPage p (item :: rest) => ret (Some (item, InPage p rest))
  | InPage p [] =>
      advance pg (Z.to_nat (total_pages (response pg) - (p + 1))) (p + 1)
  end.

(** [for await (const item of pg) observe(item)], from the state [c]; the
    loop body runs at most [fuel] times. *)
Fixpoint for_await (pg : Page) (fuel : nat) (c : Cursor) : M unit :=
  match fuel with
  | O => out_of_fuel
  | S fuel' =>
      r ← next pg c;
      match r with
      | None => ret tt
      | Some (item, c') => observe item;; for_await pg fuel' c'
      end
  end.

End Pagination.

(** ** Exports (src/export.ts) *)

Module ExportJob.
Section ExportJob.
Context `{Host}.

Definition fetch (token : string) (config : ConfigOverrides) : M json :=
  request (mkOptions GET None (Some ("exports/" +:+ token)) [] config).

(** [settled(token, pollInterval, config)]; [fuel] bounds the iterations of
    [while (true)]. *)
Fixpoint settled (fuel : nat) (token : string) (pollInterval : Z)
    (config : ConfigOverrides) : M unit :=
  match fuel with
  | O => out_of_fuel
  | S fuel' =>
      job ← fetch token config;
      state ← lift (member job "state");
      if Js.equals state "pending" || Js.equals state "processing" then
        sleep pollInterval;; settled fuel' token pollInterval config
      else if Js.equals state "successful" then ret tt
      else if Js.equals state "errored" then throw (ExportError "export errored")
      else settled fuel' token pollInterval config
  end.

End ExportJob.
End ExportJob.

(** ** CLI sessions (src/cli/session.ts) *)

Module Session.
Section Session.
Context `{Host}.

Definition fetch (sessionId : string) (config : ConfigOverrides) : M json :=
  request (mkOptions GET (Some cli) (Some ("cli/sessions/" +:+ sessionId)) [] config).

(** [settled(sessionId, pollInterval, config)]; [fuel] bounds the iterations
    of [while (true)]. *)
Fixpoint settled (fuel : nat) (sessionId : string) (pollInterval : Z)
    (config : ConfigOverrides) : M json :=
  match fuel with
  | O => out_of_fuel
  | S fuel' =>
      session ← fetch sessionId config;
      state ← lift (member session "state");
      if Js.equals state "requested" then
        sleep pollInterval;; settled fuel' sessionId pollInterval config
      else ret session
  end.

End Session.
End Session.

(** ** Concrete hosts, for running the model on examples *)

Module Demo.

(** The double quote character. *)
Definition quote : string := String (Ascii.ascii_of_nat 34) EmptyString.

(** [JSON.stringify] on values whose strings need no escaping. *)
Fixpoint stringify (v : json) : string :=
  match v with
  | JNull => "null"
  | JBool true => "true"
  | JBool false => "false"
  | JNum n => pretty n
  | JStr s => quote +:+ s +:+ quote
  | JArr items => "[" +:+ Js.join "," (map stringify items) +:+ "]"
  | JObj props =>
      "{" +:+ Js.join ","
               (map (fun kv => quote +:+ fst kv +:+ quote +:+ ":" +:+ stringify (snd kv))
                    props) +:+ "}"
  end.

(** [JSON.parse] on the texts of the listed values, which is all a run on
    these values ever parses; any other text is rejected, as the empty
    text is. *)
Definition parse (values : list json) (text : string) : option json :=
  find (fun v => String.eqb (stringify v) text) values.

(** [querystring.stringify] on keys and values that need no escaping; a
    value that is not a string, a number or a boolean is written empty. *)
Definition querystring (o : obj) : string :=
  Js.join "&"
    (map (fun kv =>
            fst kv +:+ "=" +:+
            match snd kv with
            | JStr _ | JNum _ | JBool _ => Js.to_string (snd kv)
            | JNull | JArr _ | JObj _ => ""
            end) o).

Definition hostname (base : URL) : string :=
  if String.eqb base "https://api.cased.com/" then "api.cased.com"
  else if String.eqb base "https://publish.cased.com/" then "publish.cased.com"
  else base.

(** Path and query of [new URL(path, base)] for a [base] at the root. *)
Definition url_path (path : string) (base : URL) (search : option string) : string :=
  "/" +:+ path +:+
  match search with
  | Some s => if String.eqb s "" then "" else "?" +:+ s
  | None => ""
  end.

Definition host (S : Type)
    (serve : S -> Https.RequestOptions -> option string -> Response * S)
    (values : list json) : Host :=
  {| version := "0.1.0";
     JSON_parse := parse values;
     JSON_stringify := fun o => stringify (JObj o);
     querystring_stringify := querystring;
     URL_hostname := hostname;
     URL_path := url_path;
     Srv := S;
     httpsRequest := serve |}.

(** A response with status [status] whose body is the JSON text of [v],
    as the mocks of the test suite build it. *)
Definition json_response (status : Z) (v : json) : Response :=
  mkResponse status {["content-type" := JSON_content_type]} (stringify v).

(** A server that answers from a script, one response per call, whatever
    the call; past the script it answers 500. *)
Definition scripted : list Response -> Https.RequestOptions -> option string ->
                      Response * list Response :=
  fun script _ _ =>
    match script with
    | r :: rest => (r, rest)
    | [] => (mkResponse 500 ∅ "", [])
    end.

(** A stateless server that answers by the path of the call; an unknown
    path gets an empty 404. *)
Definition routed (routes : list (string * Response)) :
    unit -> Https.RequestOptions -> option string -> Response * unit :=
  fun _ opts _ =>
    (default (mkResponse 404 ∅ "")
             (snd <$> find (fun r => String.eqb (fst r) (Https.path opts)) routes), tt).

(** The process-wide configuration of the test suite (test/mocks.ts),
    with the production endpoints. *)
Definition config : Config :=
  {| name := None;
     apiBaseURL := "https://api.cased.com/";
     publishBaseURL := "https://publish.cased.com/";
     apiVersion := 1;
     policyKey := Some "cs_test_001";
     policyKeys := {["organizations" := "cs_test_002"]};
     publishKey := Some "publish_test_001";
     guardApplicationKey := None;
     guardUserToken := None;
     guardDenyIfUnreachable := false |}.

End Demo.

(** ** The resolution order of the policy scope, as the specification words it *)



(** A [string | null | undefined] that an [if] takes for absent. *)
Definition unset (s : option string) : Prop := s = None \/ s = Some "".





Module Examples.

(** A search of the events, first page. *)
Definition search : RequestOptions :=
  mkOptions GET None (Some "events") [] no_overrides.

(** A process that has no policy key in its configuration. *)
Definition keyless : Config :=
  {| name := None;
     apiBaseURL := "https://api.cased.com/";
     publishBaseURL := "https://publish.cased.com/";
     apiVersion := 1;
     policyKey := None;
     policyKeys := ∅;
     publishKey := None;
     guardApplicationKey := None;
     guardUserToken := None;
     guardDenyIfUnreachable := false |}.

(** An environment that carries the default policy key. *)
Definition env_with_key : Env := {["CASED_POLICY_KEY" := "cs_env_001"]}.


End Examples.

(** ** Vocabulary for the properties of [request] *)

Section Calls.
Context `{Host}.

(** In the world [w], [request(options)] resolves a credential and hands
    [opts] and [postData] to the transport. *)
Definition transmits (options : RequestOptions) (w : World)
    (opts : Https.RequestOptions) (postData : option string) : Prop :=
  exists apiKey params,
    credential (env w) (merge_config (globalConfig w) (config options)) options
      = Return (apiKey, params) /\
    outgoing (merge_config (globalConfig w) (config options)) options apiKey params
      = (opts, postData).

(** In the world [w], [request(options)] gets [response] from the server. *)
Definition receives (options : RequestOptions) (w : World) (response : Response) : Prop :=
  exists opts postData,
    transmits options w opts postData /\
    fst (httpsRequest (server w) opts postData) = response.

(** The world once the server has answered the call [opts], [postData]. *)
Definition answered (w : World) (opts : Https.RequestOptions)
    (postData : option string) : World :=
  {| server := snd (httpsRequest (server w) opts postData);
     globalConfig := globalConfig w;
     env := env w;
     log := log w ++ [EvRequest opts postData] |}.

(** The header test of [request] succeeds on this response. *)
Definition declares_JSON (response : Response) : Prop :=
  headers response !! "content-type" = Some JSON_content_type.

End Calls.

(** ** The message of an [APIError], as the specification words it *)

(** The body's [message] field verbatim if present; else, if the body carries
    a [messages] mapping, its entries flattened to [<field> <messages>] and
    joined by commas; else the generic message. *)
Definition APIError_message_as_specified (body : obj) : string :=
  match Js.get body "message" with
  | Some (JStr message) => message
  | _ =>
      match Js.get body "messages" with
      | Some (JObj fields) =>
          Js.join ", " (map (fun kv => fst kv +:+ " " +:+ Js.to_string (snd kv)) fields)
      | _ => "unknown API error"
      end
  end.

(** A [messages] mapping of field to list of strings, as a JSON value. *)
Definition messages_value (fields : list (string * list string)) : json :=
  JObj (map (fun f => (fst f, JArr (map JStr (snd f)))) fields).

(** A field that is absent, [null] or the empty string. *)
Definition blank (field : option json) : Prop :=
  field = None \/ field = Some JNull \/ field = Some (JStr "").

Module Replies.

(** One stateless server per example: it answers the search of
    [Examples.search] with the given response. *)
Definition server (response : Response) :=
  Demo.routed [("/events", response)].

Definition host (response : Response) (values : list json) : Host :=
  Demo.host unit (server response) values.

Definition world (response : Response) (values : list json)
    : @World (host response values) :=
  @mkWorld (host response values) tt Demo.config ∅ [].

(** 204 with the JSON content type and an empty body. *)
Definition no_content : Response :=
  mkResponse 204 {["content-type" := JSON_content_type]} "".

(** 404 with a JSON body. *)
Definition not_found_body : json := JObj [("error", JStr "not found")].
Definition not_found : Response := Demo.json_response 404 not_found_body.

(** 200 with a JSON body declared without the charset parameter. *)
Definition bare_body : json := JObj [("id", JNum 7)].
Definition bare_JSON : Response :=
  mkResponse 200 {["content-type" := "application/json"]} (Demo.stringify bare_body).

(** 401 with an HTML body, as a proxy in front of the API sends it. *)
Definition unauthorized_html : Response :=
  mkResponse 401 {["content-type" := "text/html"]} "<h1>Unauthorized</h1>".

(** 401 with a body whose [message] is the empty string. *)
Definition empty_message_body : obj := [("message", JStr "")].
Definition empty_message : Response :=
  Demo.json_response 401 (JObj empty_message_body).

(** 401 with the body [{messages: {field: ["bad"]}}]. *)
Definition field_bad_body : obj := [("messages", messages_value [("field", ["bad"])])].
Definition field_bad : Response := Demo.json_response 401 (JObj field_bad_body).

End Replies.

(** ** Vocabulary for the properties of the cursor *)

(** The invariant of a [PageResponse]. *)
Definition PageResponse_invariant (r : PageResponse) : Prop :=
  0 <= total_count r /\ 0 < total_pages r /\ 0 <= Z.of_nat (length (results r)).

(** The payload is an object with the three fields of [r], typed as
    [PageResponse] declares them. *)
Definition carries (payload : json) (r : PageResponse) : Prop :=
  exists o, payload = JObj o /\
    Js.get o "total_count" = Some (JNum (total_count r)) /\
    Js.get o "total_pages" = Some (JNum (total_pages r)) /\
    Js.get o "results" = Some (JArr (results r)).


(** A navigation method that resolves to the page [requestPage] returns, or
    fails as it fails. *)
Definition resolved `{Host} (m : M Page) : M (option Page) :=
  fun w =>
    match m w with
    | (Return pg, w') => (Return (Some pg), w')
    | (Throw e, w') => (Throw e, w')
    | (IllTyped, w') => (IllTyped, w')
    | (OutOfFuel, w') => (OutOfFuel, w')
    end.

Module Paging.

(** A result set of three events on two pages of two. *)
Definition first : json :=
  JObj [("results", JArr [JStr "a"; JStr "b"]); ("total_count", JNum 3); ("total_pages", JNum 2)].
Definition second : json :=
  JObj [("results", JArr [JStr "c"]); ("total_count", JNum 3); ("total_pages", JNum 2)].

(** A page whose counts contradict the invariant. *)
Definition broken : json :=
  JObj [("results", JArr []); ("total_count", JNum 0); ("total_pages", JNum 0)].

Definition routes : list (string * Response) :=
  [("/events?page=1&per_page=2", Demo.json_response 200 first);
   ("/events?page=2&per_page=2", Demo.json_response 200 second);
   ("/events?page=3&per_page=2", Demo.json_response 200 broken)].

Definition host : Host := Demo.host unit (Demo.routed routes) [first; second; broken].

Definition world : @World host := @mkWorld host tt Demo.config ∅ [].

(** [Event.search(..., { perPage: 2 })] and the same at a given page. *)
Definition search : PageOptions := mkPageOptions Examples.search None (Some 2).
Definition search_at (p : Z) : PageOptions := with_page search p.

(** The calls that reach the transport for the pages 1 and 2. *)
Definition call (p : string) : Event :=
  EvRequest
    (Https.mk "api.cased.com" ("/events?page=" +:+ p +:+ "&per_page=2") GET
       [("Accept", "application/json");
        ("Authorization", "Bearer cs_test_001");
        ("User-Agent", "cased-node/0.1.0")])
    None.

(** The cursors over the two pages. *)
Definition first_page : Page :=
  mkPage search 1 (mkPageResponse [JStr "a"; JStr "b"] 3 2).
Definition second_page : Page :=
  mkPage (search_at 2) 2 (mkPageResponse [JStr "c"] 3 2).

End Paging.

(** ** Vocabulary for the properties of the poll loops *)

(** The options of [ExportJob.fetch] and of [Session.fetch]. *)
Definition export_call (token : string) (config : ConfigOverrides) : RequestOptions :=
  mkOptions GET None (Some ("exports/" +:+ token)) [] config.

Definition session_call (sessionId : string) (config : ConfigOverrides) : RequestOptions :=
  mkOptions GET (Some cli) (Some ("cli/sessions/" +:+ sessionId)) [] config.

Section Polling.
Context `{Host}.

(** The server once it has answered the call [opts], [postData] [n] times. *)
Fixpoint server_after (s : Srv) (opts : Https.RequestOptions)
    (postData : option string) (n : nat) : Srv :=
  match n with
  | O => s
  | S n' => server_after (snd (httpsRequest s opts postData)) opts postData n'
  end.

(** Its answer to that call made once more: the fetch number [n], from 0. *)
Definition reply (s : Srv) (opts : Https.RequestOptions)
    (postData : option string) (n : nat) : Response :=
  fst (httpsRequest (server_after s opts postData n) opts postData).

(** The response gives [request] the resource [resource], whose [state] is
    the string [state]. *)
Definition shows (response : Response) (resource : json) (state : string) : Prop :=
  handle response = Return resource /\
  member resource "state" = Return (Some (JStr state)).

Definition in_state (response : Response) (state : string) : Prop :=
  exists resource, shows response resource state.

(** What [n] rounds of one fetch and one sleep append to the log. *)
Fixpoint rounds (opts : Https.RequestOptions) (postData : option string)
    (delay : Z) (n : nat) : list Event :=
  match n with
  | O => []
  | S n' => EvRequest opts postData :: EvSleep delay :: rounds opts postData delay n'
  end.

(** The log of a poll that fetched [n + 1] times from the world [w] and slept
    after each fetch but the last. *)
Definition polled (w : World) (opts : Https.RequestOptions)
    (postData : option string) (delay : Z) (n : nat) : list Event :=
  log w ++ rounds opts postData delay n ++ [EvRequest opts postData].

End Polling.

Module Polls.

Definition in_state (state : string) : json := JObj [("state", JStr state)].

Definition values : list json :=
  map in_state ["pending"; "processing"; "successful"; "errored";
                "requested"; "approved"; "denied"; "timed_out"; "canceled"].

(** A server that plays a script of states, as the mocks of the test suite
    do for [settled]. *)
Definition host : Host := Demo.host (list Response) Demo.scripted values.

Definition script (states : list string) : list Response :=
  map (fun state => Demo.json_response 200 (in_state state)) states.

Definition world (states : list string) : @World host :=
  @mkWorld host (script states) Demo.config ∅ [].

(** The overrides of a CLI call: the key of the guarded application. *)
Definition guard : ConfigOverrides :=
  mkOverrides None None None None None None (Some "guard_test_001") None.

(** The call of [ExportJob.fetch "tok"] as it reaches the transport. *)
Definition export_fetch : Https.RequestOptions :=
  Https.mk "api.cased.com" "/exports/tok" GET
    [("Accept", "application/json");
     ("Authorization", "Bearer cs_test_001");
     ("User-Agent", "cased-node/0.1.0")].

(** The call of [Session.fetch "sess"] as it reaches the transport. *)
Definition session_fetch : Https.RequestOptions :=
  Https.mk "api.cased.com" "/cli/sessions/sess?user_token=" GET
    [("Accept", "application/json");
     ("Authorization", "Bearer guard_test_001");
     ("User-Agent", "cased-node/0.1.0")].

End Polls.

(** ** Vocabulary for further properties of the dispatcher *)

(** The statuses that the [switch] of [request] has a [case] for. *)
Definition handled_status (c : Z) : bool :=
  passthrough_status c || (c =? 302) || (c =? 401) || (c =? 417).

#[global] Instance BaseURL_eq_dec : EqDecision BaseURL.
Proof. solve_decision. Defined.

(** The value of a header in the [opts] handed to the transport. *)
Definition header (opts : Https.RequestOptions) (name : string) : option string :=
  snd <$> find (fun h => String.eqb (fst h) name) (Https.headers opts).

(** The number of calls of the transport in a log, and of sleeps. *)
Definition is_call (e : Event) : bool :=
  match e with EvRequest _ _ => true | _ => false end.

Definition is_sleep (e : Event) : bool :=
  match e with EvSleep _ => true | _ => false end.

Definition calls (l : list Event) : nat := length (List.filter is_call l).
Definition sleeps (l : list Event) : nat := length (List.filter is_sleep l).

Module Redirects.

(** The redirect that the mocks of the test suite answer a download with. *)
Definition found : Response :=
  mkResponse 302
    {["location" := "https://cased-exports.localhost/exports/tok.json"]} "".

(** A 500 with an HTML body. *)
Definition broken : Response :=
  mkResponse 500 {["content-type" := "text/html"]} "<h1>Internal Server Error</h1>".

(** A call of the CLI scope that names the user by [userToken]. *)
Definition identify : RequestOptions :=
  mkOptions POST (Some cli) (Some "cli/sessions") [("userToken", JStr "user_abc")]
            Polls.guard.

(** A publish call without a publish key in the configuration. *)
Definition publish_event : RequestOptions :=
  mkOptions POST (Some publish) None [("action", JStr "user.login")] no_overrides.

End Redirects.

(** ** Vocabulary for further properties of the cursor *)

(** The iterations of the outer loop of the generator that are still to
    run from a state. *)
Definition remaining (pg : Page) (c : Cursor) : nat :=
  match c with
  | AtPage p => Z.to_nat (total_pages (response pg) - p)
  | InPage p _ => Z.to_nat (total_pages (response pg) - (p + 1))
  end.

(** The counter of the generator stays where [p++] is exact: it starts at
    the page index and runs up to [total_pages], both within [2^53] of
    zero. *)
Definition exact_counter (pg : Page) : Prop :=
  - 2 ^ 53 <= page_index pg /\ total_pages (response pg) <= 2 ^ 53.

(** The cursor [pg'] is what one of the four navigation methods of [pg]
    resolved to in the world [w]. *)
Definition navigated `{Host} (pg pg' : Page) (w : World) : Prop :=
  fst (nextPage pg w) = Return (Some pg') \/
  fst (previousPage pg w) = Return (Some pg') \/
  fst (firstPage pg w) = Return pg' \/
  fst (lastPage pg w) = Return pg'.

Module Collisions.

(** A search whose own parameters carry a [page]. *)
Definition pinned : PageOptions :=
  mkPageOptions
    (mkOptions GET None (Some "events") [("phrase", JStr "a"); ("page", JNum 7)]
               no_overrides)
    None None.

End Collisions.

(** ** Vocabulary for further properties of the poll loops *)

Section Loops.
Context `{Host}.

(** The response gives [request] a resource whose [state] is none of the
    four states of an export: it is absent, or some other value. *)
Definition stateless (response : Response) : Prop :=
  exists resource,
    handle response = Return resource /\ resource <> JNull /\
    Js.equals (property resource "state") "pending" = false /\
    Js.equals (property resource "state") "processing" = false /\
    Js.equals (property resource "state") "successful" = false /\
    Js.equals (property resource "state") "errored" = false.

(** The world after [n] fetches with no sleep between them. *)
Fixpoint refetched (w : World) (opts : Https.RequestOptions)
    (postData : option string) (n : nat) : World :=
  match n with
  | O => w
  | S n' => refetched (answered w opts postData) opts postData n'
  end.

End Loops.

(** ** More of the CLI sessions and of the exports *)

Module SessionCreate.
Section SessionCreate.
Context `{Host}.

(** The options of [Session.create]. *)
Definition call (options : obj) (config : ConfigOverrides) : RequestOptions :=
  mkOptions POST (Some cli) (Some "cli/sessions") options config.

(** [create(options, config)] of src/cli/session.ts. *)
Definition create (options : obj) (config : ConfigOverrides) : M json :=
  session ← request (call options config);
  error ← lift (member session "error");
  if Js.truthy error then throw ReasonRequiredError else ret session.

End SessionCreate.
End SessionCreate.

Module Download.
Section Download.
Context `{Host}.

(** [new URL(s)]: the parsed URL, or [None] when the constructor throws. *)
Variable new_URL : string -> option URL.

(** The options of the request that [downloadURL] makes. *)
Definition call (token : string) (config : ConfigOverrides) : RequestOptions :=
  mkOptions GET None (Some ("exports/" +:+ token +:+ "/download")) [] config.

(** [downloadURL(token, pollInterval, config)] of src/export.ts; [fuel]
    bounds the loop of [settled]. *)
Definition downloadURL (fuel : nat) (token : string) (pollInterval : Z)
    (config : ConfigOverrides) : M URL :=
  ExportJob.settled fuel token pollInterval config;;
  response ← request (call token config);
  assert (Js.truthy (Some response));;
  match property response "location" with
  | Some (JStr location) =>
      match new_URL location with
      | Some url => ret url
      | None => throw TypeError
      end
  | _ => throw (AssertionError "")
  end.

End Download.
End Download.

Module Spins.

(** A server that answers every call with the same response. *)
Definition constant (response : Response) :
    unit -> Https.RequestOptions -> option string -> Response * unit :=
  fun _ _ _ => (response, tt).

(** The body of a 404: an object without [state]. *)
Definition missing : json := JObj [("error", JStr "not_found")].

Definition host (response : Response) : Host :=
  Demo.host unit (constant response) (missing :: Polls.values).

Definition world (response : Response) : @World (host response) :=
  @mkWorld (host response) tt Demo.config ∅ [].

(** 404 with a JSON body; 200 with a pending export; 200 with a requested
    session; 200 with no content type. *)
Definition not_found : Response := Demo.json_response 404 missing.
Definition pending : Response := Demo.json_response 200 (Polls.in_state "pending").
Definition requested : Response := Demo.json_response 200 (Polls.in_state "requested").
Definition untyped : Response := mkResponse 200 ∅ "ok".

End Spins.

(** ** Event processors (src/event-processor.ts) *)

(** An [AuditEvent] is a plain object; an [EventProcessor] maps events. *)
Abbreviation AuditEvent := obj (only parsing).
Abbreviation EventProcessor := (obj -> obj) (only parsing).

(** [composeEventProcessor(...eventProcessors)]. *)
Definition composeEventProcessor (eventProcessors : list EventProcessor) : EventProcessor :=
  fun event => fold_left (fun event eventProcessor => eventProcessor event) eventProcessors event.

(** [defaultEventProcessor], with the random identifier and the clock
    reading it takes handed in as [cased_id] and [timestamp]. *)
Definition defaultEventProcessor (cased_id timestamp : string) : EventProcessor :=
  fun event =>
    Js.spread [("cased_id", JStr cased_id); ("timestamp", JStr timestamp)] event.

(** ** The request context (src/context.ts) *)

Module Context.

(** What [storage.getStore()] returns within one asynchronous context:
    [undefined], or the array of context events. *)
Abbreviation Store := (option (list obj)) (only parsing).

(** [eventProcessor(event)]. *)
Definition eventProcessor (store : Store) : EventProcessor :=
  fun event =>
    match store with
    | None => event
    | Some events =>
        fold_left (fun mergedEvent contextEvent =>
                     Js.spread (Js.spread [] contextEvent) mergedEvent)
                  events event
    end.

(** The value of [k] in the first of the objects that has the key [k]. *)
Fixpoint first_with (k : string) (objects : list obj) : option json :=
  match objects with
  | [] => None
  | o :: rest =>
      match Js.get o k with
      | Some v => Some v
      | None => first_with k rest
      end
  end.

End Context.

(** ** Events (src/event.ts) *)

Module Events.

(** A [SearchPhrase]: field names with values that may be [undefined]. *)
Abbreviation SearchPhrase := (list (string * option string)) (only parsing).

(** [stringifySearchPhrase(obj)]. *)
Definition stringifySearchPhrase (o : SearchPhrase) : outcome string :=
  let parts := map (fun kv => fst kv +:+ ":" +:+ default "undefined" (snd kv)) o in
  if (0 <? Z.of_nat (length parts)) then
    match parts with
    | [part] => Return part
    | _ => Return ("(" +:+ Js.join " AND " parts +:+ ")")
    end
  else Throw (AssertionError "").

(** The [phrase] argument of [search]: a string or a [SearchPhrase]. *)
Inductive Phrase : Type :=
  | Raw (phrase : string)
  | Fields (phrase : SearchPhrase).

(** What a published event ends as. *)
Inductive Published : Type :=
  | Mocked (recorded : option (list obj))
  | Sent (payload : json).

(** The [mockPublishEvents] of a call: a boolean, or the array that
    collects the events. *)
Inductive MockPublishEvents : Type :=
  | Flag (b : bool)
  | Recorder (events : list obj).

Section Events.
Context `{Host}.

(** [search(phrase, paginationOptions, config)]. *)
Definition search (phrase : Phrase) (page perPage : option Z)
    (config : ConfigOverrides) : M Page :=
  text ← lift (match phrase with
               | Raw s => Return s
               | Fields o => stringifySearchPhrase o
               end);
  requestPage
    (mkPageOptions (mkOptions GET None (Some "events") [("phrase", JStr text)] config)
                   page perPage).

Definition searchAction (action : string) (page perPage : option Z)
    (config : ConfigOverrides) : M Page :=
  search (Fields [("action", Some action)]) page perPage config.

Definition searchActor (actor : string) (page perPage : option Z)
    (config : ConfigOverrides) : M Page :=
  search (Fields [("actor", Some actor)]) page perPage config.

(** [publish(event, config)].  The fields of the configuration that
    [Config] and [ConfigOverrides] leave out are arguments:
    [globalConfig.eventPipeline] is [globalPipeline], and the
    [eventPipeline] and [mockPublishEvents] of the call are [pipeline]
    and [mock]. *)
Definition publish (globalPipeline : list EventProcessor)
    (pipeline : option (list EventProcessor)) (mock : option MockPublishEvents)
    (event : AuditEvent) (config : ConfigOverrides) : M Published :=
  let eventProcessor := composeEventProcessor (globalPipeline ++ default [] pipeline) in
  let event := eventProcessor event in
  match mock with
  | Some (Recorder events) => ret (Mocked (Some (events ++ [event])))
  | Some (Flag true) => ret (Mocked None)
  | Some (Flag false) | None =>
      payload ← request (mkOptions POST (Some publish) None event config);
      ret (Sent payload)
  end.

End Events.
End Events.

(** ** The configuration at start-up (src/config.ts) *)

(** [castBool(val)]. *)
Definition castBool (val : option string) : bool :=
  match nonempty val with
  | None => false
  | Some v => String.eqb v "true" || String.eqb v "1"
  end.

(** The initial value of the exported [config], read from [process.env]
    when the module is loaded.  A URL is kept as the text it is built from. *)
Definition initial_config (env : Env) : Config :=
  {| name := None;
     apiBaseURL := default "https://api.cased.com/" (nonempty (env !! "CASED_API_URL"));
     publishBaseURL :=
       default "https://publish.cased.com/" (nonempty (env !! "CASED_PUBLISH_URL"));
     apiVersion := 1;
     policyKey := nonempty (env !! "CASED_POLICY_KEY");
     policyKeys := ∅;
     publishKey := nonempty (env !! "CASED_PUBLISH_KEY");
     guardApplicationKey := nonempty (env !! "GUARD_APPLICATION_KEY");
     guardUserToken := nonempty (env !! "GUARD_USER_TOKEN");
     guardDenyIfUnreachable := castBool (env !! "DENY_IF_UNREACHABLE") |}.

(** The objects of a list have one entry per key. *)
Definition keyed (o : obj) : Prop := NoDup (map fst o).

(** ** Masking of sensitive fields (src/event-processor.ts) *)

(** The ranges that [sensitiveField] records for a string value: one range,
    from 0 to its length, labelled with the field. *)
Definition whole (label : string) (value : string) : json :=
  JArr [JObj [("label", JStr label); ("begin", JNum 0);
              ("end", JNum (Z.of_nat (Js.length value)))]].

(** The [traverse] of [sensitiveField(field)], with the [pii] it fills as an
    accumulator: the keys of an object, or the indices of an array, in
    order; the key [.cased] is skipped, a string under the key [field] is
    recorded, an object, an array or [null] is entered. *)
Fixpoint traverse (field : string) (event : json) (pii : obj) {struct event} : obj :=
  match event with
  | JObj props =>
      (fix visit (props : obj) (pii : obj) {struct props} : obj :=
         match props with
         | [] => pii
         | (key, value) :: rest =>
             visit rest
               (if String.eqb key ".cased" then pii
                else
                  match value with
                  | JStr s =>
                      if String.eqb key field then Js.set pii key (whole field s) else pii
                  | JObj _ | JArr _ => traverse field value pii
                  | JNull | JBool _ | JNum _ => pii
                  end)
         end) props pii
  | JArr items =>
      (fix visit (i : nat) (items : list json) (pii : obj) {struct items} : obj :=
         match items with
         | [] => pii
         | value :: rest =>
             visit (S i) rest
               (match value with
                | JStr s =>
                    if String.eqb (pretty i) field
                    then Js.set pii (pretty i) (whole field s) else pii
                | JObj _ | JArr _ => traverse field value pii
                | JNull | JBool _ | JNum _ => pii
                end)
         end) O items pii
  | JNull | JBool _ | JNum _ | JStr _ => pii
  end.

(** What [traverse] does with one key of an object, and with one index of
    an array: the body of its loop. *)
Definition mark (field key : string) (value : json) (pii : obj) : obj :=
  if String.eqb key ".cased" then pii
  else
    match value with
    | JStr s => if String.eqb key field then Js.set pii key (whole field s) else pii
    | JObj _ | JArr _ => traverse field value pii
    | JNull | JBool _ | JNum _ => pii
    end.

Definition mark_item (field : string) (i : nat) (value : json) (pii : obj) : obj :=
  match value with
  | JStr s =>
      if String.eqb (pretty i) field then Js.set pii (pretty i) (whole field s) else pii
  | JObj _ | JArr _ => traverse field value pii
  | JNull | JBool _ | JNum _ => pii
  end.

(** The loop of [traverse] over the properties that are left, and over the
    items that are left from the index [i]. *)
Fixpoint visit_props (field : string) (props : obj) (pii : obj) : obj :=
  match props with
  | [] => pii
  | (key, value) :: rest => visit_props field rest (mark field key value pii)
  end.

Fixpoint visit_items (field : string) (i : nat) (items : list json) (pii : obj) : obj :=
  match items with
  | [] => pii
  | value :: rest => visit_items field (S i) rest (mark_item field i value pii)
  end.

(** [appendPII(event, pii)]. *)
Definition appendPII (event : obj) (pii : obj) : obj :=
  let cased := Js.get event ".cased" in
  let recorded :=
    match cased with
    | None | Some JNull => None
    | Some c => property c "pii"
    end in
  Js.set (Js.spread [] event) ".cased"
    (JObj (Js.set (Js.spread [] (from_option Js.for_in [] cased)) "pii"
             (JObj (Js.spread (Js.spread [] (from_option Js.for_in [] recorded)) pii)))).

(** [sensitiveField(field)]. *)
Definition sensitiveField (field : string) : EventProcessor :=
  fun event => appendPII event (traverse field (JObj event) []).

(** No value of the event is an object or an array, the value under
    [.cased] apart. *)
Definition shallow (event : obj) : Prop :=
  Forall (fun kv => fst kv = ".cased" \/
                    match snd kv with JObj _ | JArr _ => False | _ => True end) event.

(** The [pii] that an event carries under [.cased]. *)
Definition masks (event : obj) : option json :=
  match Js.get event ".cased" with
  | Some c => property c "pii"
  | None => None
  end.

(** All that a traversal does to the [pii] it is given is to set the one key
    [field], to the range of some string. *)
Definition marked (field : string) (pii pii' : obj) : Prop :=
  pii' = pii \/ exists s, pii' = Js.set pii field (whole field s).

Module Masking.

(** The event of the test suite. *)
Definition event : obj :=
  [("actor", JStr "some-actor"); ("action", JStr "user.create");
   ("username", JStr "@username")].

(** The string [h], [e] with an acute accent, [llo]: five characters, the
    second of two bytes. *)
Definition accented : string :=
  "h" +:+ String (Ascii.ascii_of_nat 195) (String (Ascii.ascii_of_nat 169) "llo").

Definition greeting : obj := [("action", JStr "user.greet"); ("name", JStr accented)].

End Masking.

(** ** Worlds for the examples of the further properties *)

Module Worlds.

(** A process without any key, in front of the redirecting server. *)
Definition keyless : @World (Replies.host Redirects.found []) :=
  @mkWorld (Replies.host Redirects.found []) tt Examples.keyless ∅ [].

(** A process whose configuration is the one loaded from an environment
    that holds the policy key only. *)
Definition loaded : @World (Replies.host Redirects.found []) :=
  @mkWorld (Replies.host Redirects.found []) tt
           (initial_config Examples.env_with_key) Examples.env_with_key [].

(** An export that is successful at the first fetch, then the redirect to
    its file. *)
Definition download : @World Polls.host :=
  @mkWorld Polls.host (Polls.script ["successful"] ++ [Redirects.found]) Demo.config ∅ [].

(** The same export, answered with a 404 where the redirect should be. *)
Definition no_download : @World Polls.host :=
  @mkWorld Polls.host (Polls.script ["successful"] ++ [mkResponse 404 ∅ ""])
           Demo.config ∅ [].

(** The call of [SessionCreate.create] with no options, as it reaches the
    transport. *)
Definition create_call : RequestOptions := SessionCreate.call [] Polls.guard.

(** Two context events, the outer one pushed first. *)
Definition outer : obj := [("request_id", JStr "r-1"); ("location", JStr "10.0.0.1")].
Definition inner : obj := [("location", JStr "10.0.0.2"); ("actor", JStr "job")].

End Worlds.

(** * Properties *)

(** ** Credential resolution for the policy scope *)

Lemma nonempty_Some (s : option string) (k : string) :
  nonempty s = Some k <-> s = Some k /\ k <> "".
Proof.
  unfold nonempty. destruct s as [k'|]; [|split; [discriminate | intros [? _]; discriminate]].
  destruct (String.eqb_spec k' "") as [->|Hne].
  - split; [discriminate | intros [[= ->] Hk]; contradiction].
  - split; [intros [= ->]; auto | intros [[= ->] _]; reflexivity].
Qed.

Lemma nonempty_None (s : option string) : nonempty s = None <-> unset s.
Proof.
  unfold nonempty, unset. destruct s as [k|]; [|intuition].
  destruct (String.eqb_spec k "") as [->|Hne].
  - intuition.
  - split; [discriminate | intros [?|[= ->]]; [discriminate | contradiction]].
Qed.

Lemma nonempty_set (k : string) : k <> "" -> nonempty (Some k) = Some k.
Proof. intros Hk. apply nonempty_Some. auto. Qed.

Lemma nonempty_unset (s : option string) : unset s -> nonempty s = None.
Proof. apply nonempty_None. Qed.










(** A policy named [constructor], with no key of that name configured and
    no default policy key, is not refused: the call goes out with the
    constructor of [config.policyKeys] as its bearer token. *)
Lemma policy_named_constructor :
  credential ∅
    (merge_config Examples.keyless
       (mkOverrides (Some "constructor") None None None None None None None))
    Examples.search
  = Return ("function Object() { [native code] }", []).
Proof. vm_compute. reflexivity. Qed.

(** ** The request dispatcher *)

Section Dispatch.
Context `{Host}.

Lemma request_transmits options w opts postData :
  transmits options w opts postData ->
  request options w =
    (handle (fst (httpsRequest (server w) opts postData)), answered w opts postData).
Proof.
  intros (apiKey & params & Hcred & Hout).
  unfold request. rewrite Hcred, Hout.
  unfold mbind, M_bind, bind, send, lift, answered.
  destruct (httpsRequest (server w) opts postData) as [response s]. reflexivity.
Qed.

Lemma request_receives options w response :
  receives options w response -> fst (request options w) = handle response.
Proof.
  intros (opts & postData & Htx & <-).
  rewrite (request_transmits _ _ _ _ Htx). reflexivity.
Qed.

Lemma response_data_JSON response :
  declares_JSON response ->
  response_data response =
    match JSON_parse (body response) with
    | Some data => Return data
    | None => Throw SyntaxError
    end.
Proof. intros Hct. unfold response_data. rewrite decide_True by exact Hct. reflexivity. Qed.

Lemma response_data_other response :
  ~ declares_JSON response -> response_data response = Return JNull.
Proof. intros Hct. unfold response_data. rewrite decide_False by exact Hct. reflexivity. Qed.

Lemma by_status_passthrough response data :
  passthrough_status (statusCode response) = true -> by_status response data = Return data.
Proof. intros Hs. unfold by_status. rewrite Hs. reflexivity. Qed.

Lemma by_status_rejected response data :
  statusCode response = 401 \/ statusCode response = 417 ->
  by_status response data = Throw (new_APIError data).
Proof. intros [Hs|Hs]; unfold by_status; rewrite Hs; reflexivity. Qed.

Lemma handle_passthrough_other response :
  passthrough_status (statusCode response) = true ->
  ~ declares_JSON response -> handle response = Return JNull.
Proof.
  intros Hstatus Hct. unfold handle. rewrite (response_data_other _ Hct).
  apply by_status_passthrough, Hstatus.
Qed.

End Dispatch.

(** *** Statuses handed back to the caller *)

(** C7, as stated, fails: a 204 that carries the JSON content type and an
    empty body makes [JSON.parse] throw, so [request] raises [SyntaxError]
    although the status is one of the six. *)
Lemma passthrough_counterexample :
  let h := Replies.host Replies.no_content [] in
  let w := Replies.world Replies.no_content [] in
  @receives h Examples.search w Replies.no_content /\
  passthrough_status (statusCode Replies.no_content) = true /\
  fst (@request h Examples.search w) = Throw SyntaxError.
Proof.
  cbv zeta. split; [|split].
  - eexists _, _. split; [eexists _, _; split|]; reflexivity.
  - reflexivity.
  - vm_compute. reflexivity.
Qed.

(** C8, as stated, fails: a 401 whose body is [{message: ""}] carries a
    [message] field, the empty string, yet the error raised has the generic
    message, because the constructor tests the field for truthiness. *)
Lemma APIError_message_counterexample :
  let h := Replies.host Replies.empty_message [JObj Replies.empty_message_body] in
  let w := Replies.world Replies.empty_message [JObj Replies.empty_message_body] in
  @receives h Examples.search w Replies.empty_message /\
  @JSON_parse h (body Replies.empty_message) = Some (JObj Replies.empty_message_body) /\
  APIError_message_as_specified Replies.empty_message_body = "" /\
  fst (@request h Examples.search w) = Throw (APIError "unknown API error").
Proof.
  cbv zeta. split; [|split; [|split]].
  - eexists _, _. split; [eexists _, _; split|]; reflexivity.
  - vm_compute. reflexivity.
  - reflexivity.
  - vm_compute. reflexivity.
Qed.

Lemma to_string_strings (items : list string) :
  Js.to_string (JArr (map JStr items)) = Js.join "," items.
Proof.
  cbn [Js.to_string]. f_equal. rewrite map_map. cbn [Js.to_string]. apply map_id.
Qed.

Lemma flatten_messages (fields : list (string * list string)) :
  map (fun kv : string * json => fst kv +:+ " " +:+ Js.to_string (snd kv))
      (map (fun f : string * list string => (fst f, JArr (map JStr (snd f)))) fields)
  = map (fun f => fst f +:+ " " +:+ Js.join "," (snd f)) fields.
Proof.
  rewrite map_map. apply map_ext. intros [field items]. cbn [fst snd].
  rewrite to_string_strings. reflexivity.
Qed.

Lemma blank_falsy (field : option json) : blank field -> Js.truthy field = false.
Proof. intros [->|[->| ->]]; reflexivity. Qed.

Lemma APIError_message_set (body : obj) (message : string) :
  Js.get body "message" = Some (JStr message) -> message <> "" ->
  APIError_message (JObj body) = message.
Proof.
  intros Hget Hne. unfold APIError_message, property. rewrite Hget.
  cbn [Js.truthy]. destruct (String.eqb_spec message ""); [contradiction|]. reflexivity.
Qed.

Lemma APIError_message_skipped (body : obj) :
  blank (Js.get body "message") ->
  APIError_message (JObj body) =
    if Js.truthy (Js.get body "messages") then
      Js.join ", "
        (map (fun kv => fst kv +:+ " " +:+ Js.to_string (snd kv))
             (from_option Js.for_in [] (Js.get body "messages")))
    else "unknown API error".
Proof.
  intros Hblank. unfold APIError_message, property.
  rewrite (blank_falsy _ Hblank). reflexivity.
Qed.

Section Rejections.
Context `{Host}.

(** C7, amended: a response whose status is 200, 201, 202, 204, 400 or 404
    is never turned into an error on account of its status.  When its
    [content-type] header is exactly the JSON content type, [request]
    returns the parsed body, and the only error is the [SyntaxError] that
    [JSON.parse] throws on a body that is not JSON; with any other header
    it returns [null].  So 400 and 404 reach the caller as payloads. *)
Theorem passthrough_statuses options w response :
  receives options w response ->
  passthrough_status (statusCode response) = true ->
  (forall data, declares_JSON response -> JSON_parse (body response) = Some data ->
     fst (request options w) = Return data) /\
  (declares_JSON response -> JSON_parse (body response) = None ->
     fst (request options w) = Throw SyntaxError) /\
  (~ declares_JSON response -> fst (request options w) = Return JNull).
Proof.
  intros Hrx Hstatus. rewrite (request_receives _ _ _ Hrx).
  pose proof (handle_passthrough_other response) as Hhandle. unfold handle.
  repeat split.
  - intros data Hct Hparse. rewrite (response_data_JSON _ Hct), Hparse.
    apply by_status_passthrough, Hstatus.
  - intros Hct Hparse. rewrite (response_data_JSON _ Hct), Hparse. reflexivity.
  - intros Hct. unfold handle in Hhandle. apply Hhandle; assumption.
Qed.

(** C8, amended: for a 401 or 417 whose body parsed to a value other than
    [null], [request] raises [APIError].  When the body is an object, the
    message is its [message] field when that is a non-empty string; else,
    when the body carries a [messages] mapping of field to list of strings,
    the entries [<field> <messages>] (the strings of a field joined by
    [","]) joined by [", "]; else, when it carries no [messages], the generic
    ["unknown API error"], which is also the message for a body that is not
    an object. *)
Theorem APIError_from_body options w response (data : json) :
  receives options w response ->
  statusCode response = 401 \/ statusCode response = 417 ->
  declares_JSON response ->
  JSON_parse (body response) = Some data ->
  data <> JNull ->
  (exists message, fst (request options w) = Throw (APIError message)) /\
  (forall body_object, data = JObj body_object ->
     (forall message, Js.get body_object "message" = Some (JStr message) -> message <> "" ->
        fst (request options w) = Throw (APIError message)) /\
     (forall fields, blank (Js.get body_object "message") ->
        Js.get body_object "messages" = Some (messages_value fields) ->
        fst (request options w) =
          Throw (APIError (Js.join ", "
            (map (fun f => fst f +:+ " " +:+ Js.join "," (snd f)) fields)))) /\
     (blank (Js.get body_object "message") -> blank (Js.get body_object "messages") ->
        fst (request options w) = Throw (APIError "unknown API error"))) /\
  ((forall body_object, data <> JObj body_object) ->
     fst (request options w) = Throw (APIError "unknown API error")).
Proof.
  intros Hrx Hstatus Hct Hparse Hdata. rewrite (request_receives _ _ _ Hrx). unfold handle.
  rewrite (response_data_JSON _ Hct), Hparse, (by_status_rejected _ _ Hstatus).
  assert (Hnew : new_APIError data = APIError (APIError_message data))
    by (destruct data; [contradiction|reflexivity..]).
  rewrite Hnew. split; [eauto|]. split.
  - intros body_object ->. repeat split.
    + intros message Hget Hne. do 2 f_equal. apply APIError_message_set; assumption.
    + intros fields Hblank Hget. do 2 f_equal.
      rewrite (APIError_message_skipped _ Hblank), Hget.
      cbn [Js.truthy messages_value from_option Js.for_in].
      rewrite flatten_messages. reflexivity.
    + intros Hblank Hnone. do 2 f_equal.
      rewrite (APIError_message_skipped _ Hblank), (blank_falsy _ Hnone). reflexivity.
  - intros Hother. do 2 f_equal.
    destruct data; try reflexivity. exfalso. exact (Hother _ eq_refl).
Qed.

(** C9: for a 401 or 417 whose [content-type] header is not exactly
    ["application/json; charset=utf-8"], the payload stays [null] (the body
    is not parsed) and [request] throws the [TypeError] of reading
    [message] off [null], which is not an [APIError]. *)
Theorem rejection_without_JSON options w response :
  receives options w response ->
  statusCode response = 401 \/ statusCode response = 417 ->
  ~ declares_JSON response ->
  response_data response = Return JNull /\
  fst (request options w) = Throw TypeError /\
  (forall message, fst (request options w) <> Throw (APIError message)).
Proof.
  intros Hrx Hstatus Hct.
  assert (Hrun : fst (request options w) = Throw TypeError).
  { rewrite (request_receives _ _ _ Hrx). unfold handle.
    rewrite (response_data_other _ Hct), (by_status_rejected _ _ Hstatus). reflexivity. }
  split; [exact (response_data_other _ Hct)|]. split; [exact Hrun|].
  intros message. rewrite Hrun. discriminate.
Qed.

(** C10: [request] parses the body of the response it receives exactly
    when the [content-type] header of the response is the string
    ["application/json; charset=utf-8"].  Under that header, whatever the
    status, a body that is not JSON makes [request] throw the [SyntaxError]
    of [JSON.parse], and a body that is JSON is the payload that the
    [switch] on the status is run on: for the statuses 200, 201, 202, 204,
    400 and 404, [request] returns the parsed body.  Under any other header,
    ["application/json"] without the charset and no header at all included,
    the body plays no part: the [switch] is run on [null], and for those
    statuses [request] returns [null]. *)
Theorem JSON_only_by_exact_content_type options w response :
  receives options w response ->
  (headers response !! "content-type" = Some "application/json; charset=utf-8" ->
     (JSON_parse (body response) = None ->
        fst (request options w) = Throw SyntaxError) /\
     (forall data, JSON_parse (body response) = Some data ->
        fst (request options w) = by_status response data /\
        (passthrough_status (statusCode response) = true ->
         fst (request options w) = Return data))) /\
  (headers response !! "content-type" <> Some "application/json; charset=utf-8" ->
     fst (request options w) = by_status response JNull /\
     (passthrough_status (statusCode response) = true ->
      fst (request options w) = Return JNull)) /\
  (headers response !! "content-type" = Some "application/json" ->
     passthrough_status (statusCode response) = true ->
     fst (request options w) = Return JNull).
Proof.
  intros Hrx. rewrite (request_receives _ _ _ Hrx). unfold handle.
  assert (Hother : headers response !! "content-type"
                     <> Some "application/json; charset=utf-8" ->
                   match response_data response with
                   | Return data => by_status response data
                   | Throw e => Throw e
                   | IllTyped => IllTyped
                   | OutOfFuel => OutOfFuel
                   end = by_status response JNull /\
                   (passthrough_status (statusCode response) = true ->
                    match response_data response with
                    | Return data => by_status response data
                    | Throw e => Throw e
                    | IllTyped => IllTyped
                    | OutOfFuel => OutOfFuel
                    end = Return JNull)).
  { intros Hct. rewrite (response_data_other _ Hct).
    split; [reflexivity | apply by_status_passthrough]. }
  split; [|split].
  - intros Hct. rewrite (response_data_JSON _ Hct). split.
    + intros ->. reflexivity.
    + intros data ->. split; [reflexivity | apply by_status_passthrough].
  - exact Hother.
  - intros Hbare. apply Hother. rewrite Hbare. discriminate.
Qed.

End Rejections.

Lemma receives_reply (response : Response) (values : list json) :
  @receives (Replies.host response values) Examples.search
            (Replies.world response values) response.
Proof. eexists _, _. split; [eexists _, _; split|]; reflexivity. Qed.

(** A 404 with a JSON body is handed to the caller as a payload. *)
Lemma passthrough_statuses_witness :
  fst (@request (Replies.host Replies.not_found [Replies.not_found_body])
                Examples.search (Replies.world _ _))
  = Return Replies.not_found_body.
Proof.
  refine (proj1 (@passthrough_statuses (Replies.host _ _) Examples.search
                   (Replies.world _ _) Replies.not_found (receives_reply _ _) _) _ _ _).
  - reflexivity.
  - reflexivity.
  - vm_compute. reflexivity.
Defined.

(** A 401 with [{messages: {field: ["bad"]}}] raises [APIError] with the
    message ["field bad"]. *)
Lemma APIError_from_body_witness :
  fst (@request (Replies.host Replies.field_bad [JObj Replies.field_bad_body])
                Examples.search (Replies.world _ _))
  = Throw (APIError "field bad").
Proof.
  assert (Hstatus : statusCode Replies.field_bad = 401 \/ statusCode Replies.field_bad = 417)
    by (left; reflexivity).
  assert (Hparse : @JSON_parse (Replies.host Replies.field_bad [JObj Replies.field_bad_body])
                     (body Replies.field_bad) = Some (JObj Replies.field_bad_body))
    by (vm_compute; reflexivity).
  pose proof (@APIError_from_body (Replies.host _ _) Examples.search (Replies.world _ _)
                Replies.field_bad (JObj Replies.field_bad_body) (receives_reply _ _)
                Hstatus eq_refl Hparse ltac:(discriminate)) as (_ & Hobject & _).
  destruct (Hobject Replies.field_bad_body eq_refl) as (_ & Hfields & _).
  apply (Hfields [("field", ["bad"])]).
  - left. reflexivity.
  - reflexivity.
Defined.

(** A 401 with an HTML body surfaces as a [TypeError]. *)
Lemma rejection_without_JSON_witness :
  fst (@request (Replies.host Replies.unauthorized_html []) Examples.search
                (Replies.world _ _))
  = Throw TypeError.
Proof.
  refine (proj1 (proj2 (@rejection_without_JSON (Replies.host _ _) Examples.search
                          (Replies.world _ _) Replies.unauthorized_html
                          (receives_reply _ _) _ _))).
  - left. reflexivity.
  - unfold declares_JSON. vm_compute. discriminate.
Defined.

(** A 200 declared as ["application/json"] yields the payload [null], and
    a 404 declared with the charset yields its parsed body. *)
Lemma JSON_only_by_exact_content_type_witness :
  fst (@request (Replies.host Replies.bare_JSON [Replies.bare_body]) Examples.search
                (Replies.world _ _))
  = Return JNull /\
  fst (@request (Replies.host Replies.not_found [Replies.not_found_body]) Examples.search
                (Replies.world _ _))
  = Return Replies.not_found_body.
Proof.
  split.
  - exact (proj2 (proj2 (@JSON_only_by_exact_content_type
                           (Replies.host Replies.bare_JSON [Replies.bare_body])
                           Examples.search
                           (Replies.world Replies.bare_JSON [Replies.bare_body])
                           Replies.bare_JSON (receives_reply _ _)))
                 eq_refl eq_refl).
  - refine (proj2 (proj2 (proj1 (@JSON_only_by_exact_content_type
                           (Replies.host Replies.not_found [Replies.not_found_body])
                           Examples.search
                           (Replies.world Replies.not_found [Replies.not_found_body])
                           Replies.not_found (receives_reply _ _)) eq_refl)
                         Replies.not_found_body _) eq_refl).
    vm_compute. reflexivity.
Defined.

(** ** The cursor *)

Section Cursor.
Context `{Host}.

Lemma bind_Return {A B} (m : M A) (k : A -> M B) w a w' :
  m w = (Return a, w') -> (x ← m; k x) w = k a w'.
Proof. intros Hm. unfold mbind, M_bind, bind. rewrite Hm. reflexivity. Qed.

Lemma bind_inv {A B} (m : M A) (k : A -> M B) w b w' :
  (x ← m; k x) w = (Return b, w') ->
  exists a w1, m w = (Return a, w1) /\ k a w1 = (Return b, w').
Proof.
  unfold mbind, M_bind, bind. destruct (m w) as [[a| | |] w1]; try discriminate.
  intros Hk. eauto.
Qed.


Lemma checked_inv payload r w w' :
  checked payload w = (Return r, w') ->
  w' = w /\ carries payload r /\ PageResponse_invariant r.
Proof.
  unfold checked, carries, PageResponse_invariant.
  destruct payload as [| b | n | s | items | o]; try discriminate;
    unfold number_field, mbind, M_bind, bind, assert, ret, throw, ill_typed;
    cbn [Js.get from_option]; try discriminate.
  destruct (Js.get o "total_count") as [[| | count | | |]|] eqn:Hcount;
    cbn [from_option]; try discriminate.
  destruct (0 <=? count) eqn:Hc; try discriminate.
  destruct (Js.get o "total_pages") as [[| | pages | | |]|] eqn:Hpages;
    cbn [from_option]; try discriminate.
  destruct (0 <? pages) eqn:Hp; try discriminate.
  destruct (Js.get o "results") as [[| | | | items |]|] eqn:Hresults; try discriminate.
  destruct (0 <=? Z.of_nat (length items)) eqn:Hl; try discriminate.
  intros [= <- <-]. cbn [total_count total_pages results default].
  apply Z.leb_le in Hc, Hl. apply Z.ltb_lt in Hp.
  split; [reflexivity|]. split; [exists o|]; auto.
Qed.





Lemma resolved_bind (m : M Page) w :
  (pg ← m; ret (Some pg)) w = resolved m w.
Proof.
  unfold resolved, mbind, M_bind, bind, ret.
  destruct (m w) as [[pg| | |] w']; reflexivity.
Qed.

Lemma resolved_not_null (m : M Page) w : fst (resolved m w) <> Return None.
Proof.
  unfold resolved. destruct (m w) as [[pg| | |] w']; cbn [fst]; discriminate.
Qed.

(** C4: [nextPage()] resolves to [null], without a request and without an
    error, exactly when the page index is at least [total_pages], and
    otherwise resolves as [requestPage] does on the original options with
    [page + 1]; [previousPage()] resolves to [null] exactly when the page
    index is at most 1, and otherwise as [requestPage] does with
    [page - 1]. *)
Theorem next_and_previous_page (pg : Page) (w : World) :
  let o := page_options pg in
  let p := page_index pg in
  (forall q, options (with_page o q) = options o /\
             perPage (with_page o q) = perPage o /\ page (with_page o q) = Some q) /\
  (fst (nextPage pg w) = Return None <-> p >= total_pages (response pg)) /\
  (p >= total_pages (response pg) -> nextPage pg w = (Return None, w)) /\
  (p < total_pages (response pg) ->
     nextPage pg w = resolved (requestPage (with_page o (p + 1))) w) /\
  (fst (previousPage pg w) = Return None <-> p <= 1) /\
  (p <= 1 -> previousPage pg w = (Return None, w)) /\
  (1 < p -> previousPage pg w = resolved (requestPage (with_page o (p - 1))) w).
Proof.
  cbv zeta.
  assert (Hnext_null : page_index pg >= total_pages (response pg) ->
                       nextPage pg w = (Return None, w)).
  { intros Hge. unfold nextPage.
    replace (page_index pg >=? total_pages (response pg)) with true; [reflexivity|].
    symmetry. apply Z.geb_le. lia. }
  assert (Hnext : page_index pg < total_pages (response pg) ->
                  nextPage pg w =
                  resolved (requestPage (with_page (page_options pg) (page_index pg + 1))) w).
  { intros Hlt. unfold nextPage.
    destruct (page_index pg >=? total_pages (response pg)) eqn:Hge.
    - apply Z.geb_le in Hge. lia.
    - apply resolved_bind. }
  assert (Hprev_null : page_index pg <= 1 -> previousPage pg w = (Return None, w)).
  { intros Hle. unfold previousPage.
    replace (page_index pg <=? 1) with true; [reflexivity|].
    symmetry. apply Z.leb_le. lia. }
  assert (Hprev : 1 < page_index pg ->
                  previousPage pg w =
                  resolved (requestPage (with_page (page_options pg) (page_index pg - 1))) w).
  { intros Hlt. unfold previousPage.
    destruct (page_index pg <=? 1) eqn:Hle.
    - apply Z.leb_le in Hle. lia.
    - apply resolved_bind. }
  split; [intros q; repeat split|].
  repeat split; auto.
  - intros Hnull.
    destruct (Z_lt_ge_dec (page_index pg) (total_pages (response pg))) as [Hlt|Hge]; [|exact Hge].
    rewrite (Hnext Hlt) in Hnull. exfalso. exact (resolved_not_null _ _ Hnull).
  - intros Hge. rewrite (Hnext_null Hge). reflexivity.
  - intros Hnull.
    destruct (Z_lt_ge_dec 1 (page_index pg)) as [Hlt|Hge]; [|lia].
    rewrite (Hprev Hlt) in Hnull. exfalso. exact (resolved_not_null _ _ Hnull).
  - intros Hle. rewrite (Hprev_null Hle). reflexivity.
Qed.

End Cursor.


(** On the second and last page [nextPage()] resolves to [null]; on the
    first it resolves to the cursor over the second. *)
Lemma next_and_previous_page_witness :
  @nextPage Paging.host Paging.second_page Paging.world = (Return None, Paging.world) /\
  fst (@nextPage Paging.host Paging.first_page Paging.world) = Return (Some Paging.second_page).
Proof.
  split.
  - apply (@next_and_previous_page Paging.host Paging.second_page Paging.world).
    cbn. lia.
  - pose proof (@next_and_previous_page Paging.host Paging.first_page Paging.world)
      as (_ & _ & _ & Hnext & _).
    rewrite Hnext by (cbn; lia). vm_compute. reflexivity.
Defined.

(** *** The asynchronous sequence over all pages *)

(** The sequence is lazy: while items of the page in hand remain, [next()]
    yields the first of them and no request is made. *)
Lemma next_inside_page `{Host} (pg : Page) (p : Z) (item : json) (rest : list json)
    (w : World) :
  next pg (InPage p (item :: rest)) w = (Return (Some (item, InPage p rest)), w).
Proof. reflexivity. Qed.

(** On the last page the generator returns at once: its loop runs while
    [p < total_pages], so the sequence of a cursor over the last page, and of
    every cursor of a one-page result, is empty. *)
Lemma asyncIterator_empty_on_last_page `{Host} (pg : Page) (fuel : nat) (w : World) :
  total_pages (response pg) <= page_index pg ->
  for_await pg (S fuel) (asyncIterator pg) w = (Return tt, w).
Proof.
  intros Hlast. cbn [for_await asyncIterator next].
  replace (Z.to_nat (total_pages (response pg) - page_index pg)) with O by lia.
  reflexivity.
Qed.

(** C1, evaluated where the code breaks it.  The result set has three items
    on two pages; the cursor over the first page reports [totalCount = 3] and
    [pageCount = 2].  Draining its asynchronous sequence requests page 1 a
    second time, yields the two items of page 1 and ends: page 2 is never
    requested and its item never yielded, where the claim has three items
    and a request for page 2. *)
Theorem asyncIterator_stops_short :
  let run := (pg ← @requestPage Paging.host Paging.search;
              for_await pg 8 (asyncIterator pg)) Paging.world in
  fst (@requestPage Paging.host Paging.search Paging.world) = Return Paging.first_page /\
  totalCount Paging.first_page = 3 /\
  pageCount Paging.first_page = 2 /\
  fst run = Return tt /\
  log (snd run) =
    [Paging.call "1"; Paging.call "1"; EvItem (JStr "a"); EvItem (JStr "b")].
Proof. cbv zeta. repeat split; vm_compute; reflexivity. Qed.

(** ** The poll loops *)

Section Polling.
Context `{Host}.

Lemma transmits_later options w w' opts postData :
  env w' = env w -> globalConfig w' = globalConfig w ->
  transmits options w opts postData -> transmits options w' opts postData.
Proof. unfold transmits. intros -> ->. auto. Qed.

(** One fetch of a poll loop: the resource and the world it leaves. *)
Lemma fetch_shows options w opts postData resource state :
  transmits options w opts postData ->
  shows (reply (server w) opts postData 0) resource state ->
  request options w = (Return resource, answered w opts postData) /\
  lift (member resource "state") (answered w opts postData)
    = (Return (Some (JStr state)), answered w opts postData).
Proof.
  intros Htx [Hhandle Hstate]. rewrite (request_transmits _ _ _ _ Htx).
  unfold reply in Hhandle. cbn [server_after] in Hhandle. rewrite Hhandle.
  unfold lift. rewrite Hstate. auto.
Qed.

Lemma polled_round w opts postData delay n :
  polled (emit (EvSleep delay) (answered w opts postData)) opts postData delay n
  = polled w opts postData delay (S n).
Proof.
  unfold polled, emit, answered. cbn [log rounds].
  rewrite <- !app_assoc. reflexivity.
Qed.

(** *** Exports *)

Lemma export_round fuel token delay config w opts postData :
  transmits (export_call token config) w opts postData ->
  in_state (reply (server w) opts postData 0) "pending" \/
  in_state (reply (server w) opts postData 0) "processing" ->
  ExportJob.settled (S fuel) token delay config w
  = ExportJob.settled fuel token delay config
      (emit (EvSleep delay) (answered w opts postData)).
Proof.
  intros Htx [[resource Hshows]|[resource Hshows]];
    destruct (fetch_shows _ _ _ _ _ _ Htx Hshows) as [Hfetch Hstate];
    cbn [ExportJob.settled]; unfold ExportJob.fetch; fold (export_call token config);
    rewrite (bind_Return _ _ _ _ _ Hfetch), (bind_Return _ _ _ _ _ Hstate);
    reflexivity.
Qed.

Lemma export_end fuel token delay config w opts postData state :
  transmits (export_call token config) w opts postData ->
  in_state (reply (server w) opts postData 0) state ->
  (state = "successful" ->
   ExportJob.settled (S fuel) token delay config w
   = (Return tt, answered w opts postData)) /\
  (state = "errored" ->
   ExportJob.settled (S fuel) token delay config w
   = (Throw (ExportError "export errored"), answered w opts postData)).
Proof.
  intros Htx [resource Hshows].
  destruct (fetch_shows _ _ _ _ _ _ Htx Hshows) as [Hfetch Hstate].
  split; intros ->; cbn [ExportJob.settled]; unfold ExportJob.fetch;
    fold (export_call token config);
    rewrite (bind_Return _ _ _ _ _ Hfetch), (bind_Return _ _ _ _ _ Hstate);
    reflexivity.
Qed.

(** A run of [n] unfinished states followed by a terminal one: the loop
    fetches [n + 1] times, sleeps after each of the first [n] fetches, and
    ends on the last fetch as the terminal state says. *)
Lemma export_poll token delay config opts postData state n :
  forall w fuel,
  transmits (export_call token config) w opts postData ->
  (forall i, (i < n)%nat ->
     in_state (reply (server w) opts postData i) "pending" \/
     in_state (reply (server w) opts postData i) "processing") ->
  in_state (reply (server w) opts postData n) state ->
  (n < fuel)%nat ->
  exists w',
    log w' = polled w opts postData delay n /\
    (state = "successful" ->
     ExportJob.settled fuel token delay config w = (Return tt, w')) /\
    (state = "errored" ->
     ExportJob.settled fuel token delay config w
     = (Throw (ExportError "export errored"), w')).
Proof.
  induction n as [|n IH]; intros w fuel Htx Hpending Hlast Hfuel;
    (destruct fuel as [|fuel]; [lia|]).
  - exists (answered w opts postData). split; [reflexivity|].
    exact (export_end fuel token delay config w opts postData state Htx Hlast).
  - rewrite (export_round fuel token delay config w opts postData Htx
               (Hpending O ltac:(lia))).
    destruct (IH (emit (EvSleep delay) (answered w opts postData)) fuel)
      as (w' & Hlog & Hend).
    + eapply transmits_later; [| |exact Htx]; reflexivity.
    + intros i Hi. apply (Hpending (S i)). lia.
    + exact Hlast.
    + lia.
    + exists w'. rewrite Hlog, polled_round. auto.
Qed.

(** *** Sessions *)

Lemma session_round fuel sessionId delay config w opts postData :
  transmits (session_call sessionId config) w opts postData ->
  in_state (reply (server w) opts postData 0) "requested" ->
  Session.settled (S fuel) sessionId delay config w
  = Session.settled fuel sessionId delay config
      (emit (EvSleep delay) (answered w opts postData)).
Proof.
  intros Htx [resource Hshows].
  destruct (fetch_shows _ _ _ _ _ _ Htx Hshows) as [Hfetch Hstate].
  cbn [Session.settled]. unfold Session.fetch. fold (session_call sessionId config).
  rewrite (bind_Return _ _ _ _ _ Hfetch), (bind_Return _ _ _ _ _ Hstate).
  reflexivity.
Qed.

Lemma session_end fuel sessionId delay config w opts postData resource state :
  transmits (session_call sessionId config) w opts postData ->
  shows (reply (server w) opts postData 0) resource state ->
  state <> "requested" ->
  Session.settled (S fuel) sessionId delay config w
  = (Return resource, answered w opts postData).
Proof.
  intros Htx Hshows Hstate.
  destruct (fetch_shows _ _ _ _ _ _ Htx Hshows) as [Hfetch Hmember].
  cbn [Session.settled]. unfold Session.fetch. fold (session_call sessionId config).
  rewrite (bind_Return _ _ _ _ _ Hfetch), (bind_Return _ _ _ _ _ Hmember).
  cbn [Js.equals]. destruct (String.eqb_spec state "requested"); [contradiction|].
  reflexivity.
Qed.

Lemma session_poll sessionId delay config opts postData resource state n :
  forall w fuel,
  transmits (session_call sessionId config) w opts postData ->
  (forall i, (i < n)%nat -> in_state (reply (server w) opts postData i) "requested") ->
  shows (reply (server w) opts postData n) resource state ->
  state <> "requested" ->
  (n < fuel)%nat ->
  exists w',
    Session.settled fuel sessionId delay config w = (Return resource, w') /\
    log w' = polled w opts postData delay n.
Proof.
  induction n as [|n IH]; intros w fuel Htx Hpending Hlast Hstate Hfuel;
    (destruct fuel as [|fuel]; [lia|]).
  - exists (answered w opts postData). split; [|reflexivity].
    exact (session_end fuel sessionId delay config w opts postData resource state
             Htx Hlast Hstate).
  - rewrite (session_round fuel sessionId delay config w opts postData Htx
               (Hpending O ltac:(lia))).
    destruct (IH (emit (EvSleep delay) (answered w opts postData)) fuel)
      as (w' & Hrun & Hlog).
    + eapply transmits_later; [| |exact Htx]; reflexivity.
    + intros i Hi. apply (Hpending (S i)). lia.
    + exact Hlast.
    + exact Hstate.
    + lia.
    + exists w'. rewrite Hlog, polled_round. auto.
Qed.

(** C6: when the fetches of an export show [n] states that are [pending] or
    [processing] and then [successful], [settled] returns normally, given
    room for [n + 1] iterations; it has then fetched [n + 1] times, once per
    state, and slept for the poll interval after each of the [n] unfinished
    states and not after the last fetch. *)
Theorem settled_on_first_success token pollInterval config w opts postData n fuel :
  transmits (export_call token config) w opts postData ->
  (forall i, (i < n)%nat ->
     in_state (reply (server w) opts postData i) "pending" \/
     in_state (reply (server w) opts postData i) "processing") ->
  in_state (reply (server w) opts postData n) "successful" ->
  (n < fuel)%nat ->
  exists w',
    ExportJob.settled fuel token pollInterval config w = (Return tt, w') /\
    log w' = log w ++ rounds opts postData pollInterval n ++ [EvRequest opts postData].
Proof.
  intros Htx Hpending Hlast Hfuel.
  destruct (export_poll token pollInterval config opts postData "successful" n w fuel
              Htx Hpending Hlast Hfuel) as (w' & Hlog & Hsuccess & _).
  exists w'. split; [exact (Hsuccess eq_refl) | exact Hlog].
Qed.

(** C3, amended.  For an export: when the fetches show [n] unfinished states
    and then [errored], [settled] raises [ExportError] on that fetch and
    polls no further; with [errored] at once that is one fetch and no sleep.
    For an authorization session: when the fetches show [n] times
    [requested] and then any other state, [denied], [timed_out] and
    [canceled] included, [settled] polls no further and returns the session
    to the caller; it raises no error. *)
Theorem settled_on_terminal_state pollInterval config w opts postData n fuel :
  (n < fuel)%nat ->
  (forall token,
     transmits (export_call token config) w opts postData ->
     (forall i, (i < n)%nat ->
        in_state (reply (server w) opts postData i) "pending" \/
        in_state (reply (server w) opts postData i) "processing") ->
     in_state (reply (server w) opts postData n) "errored" ->
     exists w',
       ExportJob.settled fuel token pollInterval config w
       = (Throw (ExportError "export errored"), w') /\
       log w' = log w ++ rounds opts postData pollInterval n ++ [EvRequest opts postData]) /\
  (forall sessionId session state,
     transmits (session_call sessionId config) w opts postData ->
     (forall i, (i < n)%nat -> in_state (reply (server w) opts postData i) "requested") ->
     shows (reply (server w) opts postData n) session state ->
     state <> "requested" ->
     exists w',
       Session.settled fuel sessionId pollInterval config w = (Return session, w') /\
       log w' = log w ++ rounds opts postData pollInterval n ++ [EvRequest opts postData]).
Proof.
  intros Hfuel. split.
  - intros token Htx Hpending Hlast.
    destruct (export_poll token pollInterval config opts postData "errored" n w fuel
                Htx Hpending Hlast Hfuel) as (w' & Hlog & _ & Herrored).
    exists w'. split; [exact (Herrored eq_refl) | exact Hlog].
  - intros sessionId session state Htx Hpending Hlast Hstate.
    exact (session_poll sessionId pollInterval config opts postData session state n w fuel
             Htx Hpending Hlast Hstate Hfuel).
Qed.

End Polling.

Lemma transmits_export_fetch (states : list string) :
  @transmits Polls.host (export_call "tok" no_overrides) (Polls.world states)
             Polls.export_fetch None.
Proof. eexists _, _. split; reflexivity. Qed.

Lemma transmits_session_fetch (states : list string) :
  @transmits Polls.host (session_call "sess" Polls.guard) (Polls.world states)
             Polls.session_fetch None.
Proof. eexists _, _. split; reflexivity. Qed.

(** C3, as stated, fails for sessions: a fetch that shows the session
    [denied] ends the loop, but [settled] returns that session to the caller
    and raises nothing. *)
Lemma session_denied_counterexample :
  let run := @Session.settled Polls.host 1 "sess" 1000 Polls.guard (Polls.world ["denied"]) in
  fst run = Return (Polls.in_state "denied") /\
  log (snd run) = [EvRequest Polls.session_fetch None].
Proof. cbv zeta. split; vm_compute; reflexivity. Qed.

(** Against the states pending, processing, successful the loop returns after
    three fetches, with one sleep after each of the first two. *)
Lemma settled_on_first_success_witness :
  exists w',
    @ExportJob.settled Polls.host 3 "tok" 100 no_overrides
       (Polls.world ["pending"; "processing"; "successful"]) = (Return tt, w') /\
    log w' = [EvRequest Polls.export_fetch None; EvSleep 100;
              EvRequest Polls.export_fetch None; EvSleep 100;
              EvRequest Polls.export_fetch None].
Proof.
  apply (@settled_on_first_success Polls.host "tok" 100 no_overrides
           (Polls.world ["pending"; "processing"; "successful"])
           Polls.export_fetch None 2%nat 3%nat).
  - apply transmits_export_fetch.
  - intros [|[|i]] Hi.
    + left. exists (Polls.in_state "pending"). split; vm_compute; reflexivity.
    + right. exists (Polls.in_state "processing"). split; vm_compute; reflexivity.
    + lia.
  - exists (Polls.in_state "successful"). split; vm_compute; reflexivity.
  - lia.
Defined.

(** Against [errored] at once the export loop raises after one fetch and no
    sleep; against [requested] and then [canceled] the session loop returns
    the canceled session after two fetches and one sleep. *)
Lemma settled_on_terminal_state_witness :
  (exists w',
     @ExportJob.settled Polls.host 1 "tok" 30000 no_overrides (Polls.world ["errored"])
     = (Throw (ExportError "export errored"), w') /\
     log w' = [EvRequest Polls.export_fetch None]) /\
  (exists w',
     @Session.settled Polls.host 2 "sess" 1000 Polls.guard
        (Polls.world ["requested"; "canceled"])
     = (Return (Polls.in_state "canceled"), w') /\
     log w' = [EvRequest Polls.session_fetch None; EvSleep 1000;
               EvRequest Polls.session_fetch None]).
Proof.
  split.
  - apply (proj1 (@settled_on_terminal_state Polls.host 30000 no_overrides
                    (Polls.world ["errored"]) Polls.export_fetch None 0%nat 1%nat
                    ltac:(lia)) "tok").
    + apply transmits_export_fetch.
    + intros i Hi. lia.
    + exists (Polls.in_state "errored"). split; vm_compute; reflexivity.
  - apply (proj2 (@settled_on_terminal_state Polls.host 1000 Polls.guard
                    (Polls.world ["requested"; "canceled"]) Polls.session_fetch None
                    1%nat 2%nat ltac:(lia)) "sess" (Polls.in_state "canceled") "canceled").
    + apply transmits_session_fetch.
    + intros [|i] Hi; [|lia].
      exists (Polls.in_state "requested"). split; vm_compute; reflexivity.
    + split; vm_compute; reflexivity.
    + discriminate.
Defined.

(** * Further properties of the code *)

(** ** The dispatcher *)

Lemma get_set_same (o : obj) (k : string) (v : json) : Js.get (Js.set o k v) k = Some v.
Proof.
  induction o as [|[k' v'] o IH]; cbn [Js.set Js.get].
  - rewrite String.eqb_refl. reflexivity.
  - destruct (String.eqb k k') eqn:Hk; cbn [Js.get]; rewrite Hk; [reflexivity | exact IH].
Qed.

Lemma get_set_other (o : obj) (k k' : string) (v : json) :
  k <> k' -> Js.get (Js.set o k v) k' = Js.get o k'.
Proof.
  intros Hne. induction o as [|[k0 v0] o IH]; cbn [Js.set Js.get].
  - destruct (String.eqb_spec k' k); [congruence | reflexivity].
  - destruct (String.eqb_spec k k0) as [->|Hk]; cbn [Js.get].
    + destruct (String.eqb_spec k' k0); [congruence | reflexivity].
    + destruct (String.eqb k' k0); [reflexivity | exact IH].
Qed.

Lemma credential_cases (env : Env) (config : Config) (options : RequestOptions) :
  (exists key ps, credential env config options = Return (key, ps)) \/
  (exists m, credential env config options = Throw (AuthenticationError m)).
Proof.
  unfold credential, no_publish_key, no_cli_key, no_policy_key.
  destruct (baseURL options) as [[| |]|].
  - destruct (nonempty (getPolicyKey env config)); eauto.
  - destruct (nonempty (publishKey config)); eauto.
  - destruct (nonempty (guardApplicationKey config)); eauto.
  - destruct (nonempty (getPolicyKey env config)); eauto.
Qed.

Section Transport.
Context `{Host}.

Lemma handle_not_authentication (response : Response) (m : string) :
  handle response <> Throw (AuthenticationError m).
Proof.
  unfold handle, response_data.
  destruct (decide _); [destruct (JSON_parse (body response)) as [data|]|];
    try discriminate; unfold by_status;
    destruct (passthrough_status (statusCode response)); try discriminate;
    destruct (statusCode response =? 302); try discriminate;
    destruct ((statusCode response =? 401) || (statusCode response =? 417));
    try discriminate.
  - destruct data; discriminate.
Qed.

Lemma request_cases (options : RequestOptions) (w : World) :
  (exists m, request options w = (Throw (AuthenticationError m), w)) \/
  (exists opts postData,
     transmits options w opts postData /\
     request options w =
       (handle (fst (httpsRequest (server w) opts postData)), answered w opts postData)).
Proof.
  destruct (credential_cases (env w) (merge_config (globalConfig w) (config options)) options)
    as [(key & ps & Hcred)|(m & Hcred)].
  - right.
    destruct (outgoing (merge_config (globalConfig w) (config options)) options key ps)
      as [opts postData] eqn:Hout.
    exists opts, postData.
    assert (Htx : transmits options w opts postData) by (exists key, ps; auto).
    split; [exact Htx | exact (request_transmits _ _ _ _ Htx)].
  - left. exists m. unfold request. rewrite Hcred. reflexivity.
Qed.

Lemma answered_differs (w : World) opts postData : answered w opts postData <> w.
Proof.
  intros Heq. apply (f_equal log) in Heq. cbn [answered log] in Heq.
  apply (f_equal (@length Event)) in Heq. rewrite length_app in Heq. cbn in Heq. lia.
Qed.

(** X1: an [AuthenticationError] is raised only before the transport is
    called: when [request] ends with one, nothing was sent and the world is
    as it was.  And [request] calls the transport at most once: the world
    it leaves is the one it found, or that one after a single call. *)
Theorem authentication_precedes_transport (options : RequestOptions) (w : World) :
  (forall m, fst (request options w) = Throw (AuthenticationError m) ->
     snd (request options w) = w) /\
  (snd (request options w) = w \/
   exists opts postData,
     transmits options w opts postData /\
     snd (request options w) = answered w opts postData).
Proof.
  destruct (request_cases options w) as [(m & Hrun)|(opts & postData & Htx & Hrun)];
    rewrite Hrun; cbn [fst snd].
  - split; [reflexivity | left; reflexivity].
  - split; [|right; eauto].
    intros m Hm. exfalso. exact (handle_not_authentication _ _ Hm).
Qed.

End Transport.

Section Scopes.
Context `{Host}.

Lemma request_throws_unsent (options : RequestOptions) (w : World) (e : Error) :
  credential (env w) (merge_config (globalConfig w) (config options)) options = Throw e ->
  request options w = (Throw e, w).
Proof. intros Hcred. unfold request. rewrite Hcred. reflexivity. Qed.

(** X2: a call of the publish scope reads [publishKey] and a call of the CLI
    scope reads [guardApplicationKey], each in the merged configuration and
    nothing else: with that key unset (null or empty) the call fails with the
    scope's [AuthenticationError] and nothing is sent, whatever the other
    keys and the environment hold; with it set the call goes out and the key
    is the bearer token. *)
Theorem scope_key_decides (options : RequestOptions) (w : World) :
  let merged := merge_config (globalConfig w) (config options) in
  (baseURL options = Some publish ->
     (unset (publishKey merged) -> request options w = (Throw no_publish_key, w)) /\
     (forall key, publishKey merged = Some key -> key <> "" ->
        exists opts postData, transmits options w opts postData /\
          header opts "Authorization" = Some ("Bearer " +:+ key))) /\
  (baseURL options = Some cli ->
     (unset (guardApplicationKey merged) -> request options w = (Throw no_cli_key, w)) /\
     (forall key, guardApplicationKey merged = Some key -> key <> "" ->
        exists opts postData, transmits options w opts postData /\
          header opts "Authorization" = Some ("Bearer " +:+ key))).
Proof.
  cbv zeta. split; intros Hscope; split.
  - intros Hunset. apply request_throws_unsent.
    unfold credential. rewrite Hscope, (nonempty_unset _ Hunset). reflexivity.
  - intros key Hkey Hne. eexists _, _. split.
    + eexists key, _. split; [|reflexivity].
      unfold credential. rewrite Hscope, Hkey, (nonempty_set _ Hne). reflexivity.
    + unfold header, outgoing. cbn [Https.headers].
      destruct (is_GET (method options)); reflexivity.
  - intros Hunset. apply request_throws_unsent.
    unfold credential. rewrite Hscope, (nonempty_unset _ Hunset). reflexivity.
  - intros key Hkey Hne. eexists _, _. split.
    + eexists key, _. split; [|reflexivity].
      unfold credential. rewrite Hscope, Hkey, (nonempty_set _ Hne). reflexivity.
    + unfold header, outgoing. cbn [Https.headers].
      destruct (is_GET (method options)); reflexivity.
Qed.

(** X3: a 302 is turned into the payload [{location: <the location header>}];
    the body plays no part, provided the response either does not carry the
    JSON content type or carries a body that parses. *)
Theorem redirect_becomes_location options w response (location : string) :
  receives options w response ->
  statusCode response = 302 ->
  headers response !! "location" = Some location ->
  ~ declares_JSON response \/ (exists data, JSON_parse (body response) = Some data) ->
  fst (request options w) = Return (JObj [("location", JStr location)]).
Proof.
  intros Hrx Hstatus Hlocation Hbody. rewrite (request_receives _ _ _ Hrx).
  assert (Hdata : exists data, response_data response = Return data).
  { destruct Hbody as [Hct|[data Hparse]].
    - exists JNull. apply response_data_other, Hct.
    - destruct (decide (declares_JSON response)) as [Hct|Hct].
      + exists data. rewrite (response_data_JSON _ Hct), Hparse. reflexivity.
      + exists JNull. apply response_data_other, Hct. }
  destruct Hdata as [data Hdata]. unfold handle. rewrite Hdata.
  unfold by_status. rewrite Hstatus, Hlocation. reflexivity.
Qed.

(** X4: a status that the [switch] has no [case] for (a 403, a 429, a 500)
    does not become an [APIError]: [request] fails with the [AssertionError]
    ["unhandled status code: <status>"], provided the response either does
    not carry the JSON content type or carries a body that parses. *)
Theorem unhandled_status_asserts options w response :
  receives options w response ->
  handled_status (statusCode response) = false ->
  ~ declares_JSON response \/ (exists data, JSON_parse (body response) = Some data) ->
  fst (request options w) =
    Throw (AssertionError ("unhandled status code: " +:+ pretty (statusCode response))).
Proof.
  intros Hrx Hstatus Hbody. rewrite (request_receives _ _ _ Hrx).
  assert (Hdata : exists data, response_data response = Return data).
  { destruct Hbody as [Hct|[data Hparse]].
    - exists JNull. apply response_data_other, Hct.
    - destruct (decide (declares_JSON response)) as [Hct|Hct].
      + exists data. rewrite (response_data_JSON _ Hct), Hparse. reflexivity.
      + exists JNull. apply response_data_other, Hct. }
  destruct Hdata as [data Hdata]. unfold handle. rewrite Hdata.
  unfold handled_status in Hstatus. unfold by_status.
  destruct (passthrough_status (statusCode response)); [discriminate|].
  destruct (statusCode response =? 302); [discriminate|].
  destruct (statusCode response =? 401); [discriminate|].
  destruct (statusCode response =? 417); [discriminate|]. reflexivity.
Qed.

(** X5: what reaches the transport has a body exactly when the method is not
    GET.  A GET carries its parameters in the query and has neither
    [Content-Type] nor [Content-Length]; any other method carries the
    parameters as the JSON body, with [Content-Length] the byte length of
    that body, and leaves the query of the path alone.  The host is that of
    [publishBaseURL] for the publish scope and of [apiBaseURL] for every
    other scope, the CLI scope included. *)
Theorem outgoing_shape (options : RequestOptions) (w : World) opts postData :
  transmits options w opts postData ->
  let merged := merge_config (globalConfig w) (config options) in
  exists key ps,
    credential (env w) merged options = Return (key, ps) /\
    Https.method opts = method options /\
    Https.host opts =
      URL_hostname (if decide (baseURL options = Some publish)
                    then publishBaseURL merged else apiBaseURL merged) /\
    (method options = GET ->
       postData = None /\
       header opts "Content-Type" = None /\ header opts "Content-Length" = None /\
       Https.path opts =
         URL_path (default "" (path options))
                  (if decide (baseURL options = Some publish)
                   then publishBaseURL merged else apiBaseURL merged)
                  (Some (querystring_stringify ps))) /\
    (method options <> GET ->
       postData = Some (JSON_stringify ps) /\
       header opts "Content-Type" = Some "application/json; charset=utf-8" /\
       header opts "Content-Length" = Some (pretty (String.length (JSON_stringify ps))) /\
       Https.path opts =
         URL_path (default "" (path options))
                  (if decide (baseURL options = Some publish)
                   then publishBaseURL merged else apiBaseURL merged)
                  None).
Proof.
  intros (key & ps & Hcred & Hout). cbv zeta. exists key, ps.
  split; [exact Hcred|]. unfold outgoing in Hout.
  assert (Hbase : match baseURL options with
                  | Some publish =>
                      publishBaseURL (merge_config (globalConfig w) (config options))
                  | _ => apiBaseURL (merge_config (globalConfig w) (config options))
                  end =
                  if decide (baseURL options = Some publish)
                  then publishBaseURL (merge_config (globalConfig w) (config options))
                  else apiBaseURL (merge_config (globalConfig w) (config options))).
  { destruct (baseURL options) as [[| |]|]; reflexivity. }
  rewrite Hbase in Hout.
  destruct (method options) eqn:Hmethod; cbn [is_GET] in Hout;
    injection Hout as <- <-; cbn [Https.method Https.host Https.path];
    (split; [reflexivity|]); (split; [reflexivity|]);
    (split; [intros Hget|intros Hother]); try discriminate; try contradiction;
    repeat split; reflexivity.
Qed.

End Scopes.

(** X6: in the CLI scope the parameters that are sent differ from the
    caller's in [user_token] at most.  A truthy [user_token] of the caller is
    kept; else [user_token] becomes the caller's [userToken] when that is
    truthy; else it becomes [config.guardUserToken], or [null] when the
    configuration has none.  In the other scopes the parameters are sent as
    given. *)
Theorem user_token_backfill (env : Env) (config : Config) (options : RequestOptions)
    (key : string) (ps : obj) :
  credential env config options = Return (key, ps) ->
  (baseURL options <> Some cli -> ps = params options) /\
  (baseURL options = Some cli ->
     (forall k, k <> "user_token" -> Js.get ps k = Js.get (params options) k) /\
     (Js.truthy (Js.get (params options) "user_token") = true -> ps = params options) /\
     (Js.truthy (Js.get (params options) "user_token") = false ->
        (Js.truthy (Js.get (params options) "userToken") = true ->
           Js.get ps "user_token" = Js.get (params options) "userToken") /\
        (Js.truthy (Js.get (params options) "userToken") = false ->
           Js.get ps "user_token" = Some (from_option JStr JNull (guardUserToken config))))).
Proof.
  unfold credential. intros Hcred. split.
  - intros Hscope. destruct (baseURL options) as [[| |]|]; try contradiction.
    + destruct (nonempty (getPolicyKey env config)); [|discriminate]. congruence.
    + destruct (nonempty (publishKey config)); [|discriminate]. congruence.
    + destruct (nonempty (getPolicyKey env config)); [|discriminate]. congruence.
  - intros Hscope. rewrite Hscope in Hcred.
    destruct (nonempty (guardApplicationKey config)); [|discriminate].
    injection Hcred as _ <-.
    destruct (Js.truthy (Js.get (params options) "user_token")) eqn:Htoken.
    + repeat split; try discriminate; reflexivity.
    + split; [|split; [discriminate|]].
      * intros k Hk. apply get_set_other. congruence.
      * intros _. rewrite get_set_same. split; intros Huser; rewrite Huser.
        -- destruct (Js.get (params options) "userToken"); [reflexivity|discriminate].
        -- reflexivity.
Qed.

(** ** The cursor *)

Lemma get_absent (o : obj) (k : string) : k ∉ map fst o -> Js.get o k = None.
Proof.
  induction o as [|[k' v] o IH]; cbn [Js.get map fst]; [reflexivity|].
  intros Hnotin. apply not_elem_of_cons in Hnotin as [Hne Hrest].
  destruct (String.eqb_spec k k'); [contradiction | auto].
Qed.

Lemma get_spread (o extra : obj) (k : string) :
  NoDup (map fst extra) ->
  Js.get (Js.spread o extra) k =
    match Js.get extra k with
    | Some v => Some v
    | None => Js.get o k
    end.
Proof.
  unfold Js.spread. revert o.
  induction extra as [|[k0 v0] extra IH]; intros o Hnodup; cbn [fold_left Js.get];
    [reflexivity|].
  cbn [map fst] in Hnodup. apply NoDup_cons in Hnodup as [Hfresh Hnodup].
  cbn [fst snd]. rewrite (IH _ Hnodup).
  destruct (String.eqb_spec k k0) as [->|Hne].
  - rewrite (get_absent _ _ Hfresh). apply get_set_same.
  - destruct (Js.get extra k); [reflexivity|]. apply get_set_other. congruence.
Qed.

(** X7: the parameters a page request sends are the caller's, with [page]
    and [per_page] filled in only where the caller has none of that name: a
    caller's own [page] or [per_page] wins over the pagination options.  So
    when the caller's parameters carry a [page], every navigation from the
    cursor sends that same [page]. *)
Theorem caller_params_win (o : PageOptions) :
  NoDup (map fst (params (options o))) ->
  let given := params (options o) in
  let sent := params (page_request o) in
  (forall k, k <> "page" -> k <> "per_page" -> Js.get sent k = Js.get given k) /\
  Js.get sent "page" = Some (default (JNum (or_default (page o) 1)) (Js.get given "page")) /\
  Js.get sent "per_page" =
    Some (default (JNum (or_default (perPage o) 25)) (Js.get given "per_page")) /\
  (forall v p, Js.get given "page" = Some v ->
     Js.get (params (page_request (with_page o p))) "page" = Some v).
Proof.
  intros Hnodup. cbv zeta. unfold page_request. cbn [params].
  repeat split.
  - intros k Hpage Hper. rewrite (get_spread _ _ _ Hnodup).
    destruct (Js.get (params (options o)) k); [reflexivity|]. cbn [Js.get].
    destruct (String.eqb_spec k "page"); [contradiction|].
    destruct (String.eqb_spec k "per_page"); [contradiction|]. reflexivity.
  - rewrite (get_spread _ _ _ Hnodup).
    destruct (Js.get (params (options o)) "page"); reflexivity.
  - rewrite (get_spread _ _ _ Hnodup).
    destruct (Js.get (params (options o)) "per_page"); reflexivity.
  - intros v p Hgiven. cbn [with_page options]. rewrite (get_spread _ _ _ Hnodup), Hgiven.
    reflexivity.
Qed.

Section Navigation.
Context `{Host}.

Lemma requestPage_inv (o : PageOptions) (w w' : World) (pg : Page) :
  requestPage o w = (Return pg, w') ->
  page_options pg = o /\ page_index pg = or_default (page o) 1 /\
  PageResponse_invariant (response pg).
Proof.
  intros Hrun. unfold requestPage in Hrun.
  apply bind_inv in Hrun as (payload & w1 & _ & Hrun).
  apply bind_inv in Hrun as (r & w2 & Hchecked & Hret).
  apply checked_inv in Hchecked as (_ & _ & Hinv).
  unfold mret, M_ret, ret in Hret. injection Hret as <- _. auto.
Qed.

Lemma requestPage_fst_inv (o : PageOptions) (w : World) (pg : Page) :
  fst (requestPage o w) = Return pg ->
  page_options pg = o /\ page_index pg = or_default (page o) 1 /\
  PageResponse_invariant (response pg).
Proof.
  destruct (requestPage o w) as [r w'] eqn:Hrun. cbn [fst]. intros ->.
  exact (requestPage_inv _ _ _ _ Hrun).
Qed.

Lemma resolved_inv (m : M Page) (w : World) (pg : Page) :
  fst (resolved m w) = Return (Some pg) -> fst (m w) = Return pg.
Proof.
  unfold resolved. destruct (m w) as [[pg0| | |] w']; cbn [fst]; congruence.
Qed.

Lemma navigated_inv (pg pg' : Page) (w : World) :
  navigated pg pg' w ->
  exists p, fst (requestPage (with_page (page_options pg) p) w) = Return pg' /\
    ((fst (nextPage pg w) = Return (Some pg') /\ p = page_index pg + 1 /\
      page_index pg < total_pages (response pg)) \/
     (fst (previousPage pg w) = Return (Some pg') /\ p = page_index pg - 1 /\
      1 < page_index pg) \/
     (fst (firstPage pg w) = Return pg' /\ p = 1) \/
     (fst (lastPage pg w) = Return pg' /\ p = total_pages (response pg))).
Proof.
  intros [Hnav|[Hnav|[Hnav|Hnav]]].
  - exists (page_index pg + 1).
    assert (Hlt : page_index pg < total_pages (response pg)).
    { destruct (Z_lt_ge_dec (page_index pg) (total_pages (response pg))) as [Hlt|Hge];
        [exact Hlt|].
      unfold nextPage in Hnav.
      replace (page_index pg >=? total_pages (response pg)) with true in Hnav
        by (symmetry; apply Z.geb_le; lia).
      discriminate. }
    split; [|left; auto].
    apply resolved_inv. rewrite <- resolved_bind. unfold nextPage in Hnav.
    destruct (page_index pg >=? total_pages (response pg)) eqn:Hge; [|exact Hnav].
    apply Z.geb_le in Hge. lia.
  - exists (page_index pg - 1).
    assert (Hlt : 1 < page_index pg).
    { destruct (Z_lt_ge_dec 1 (page_index pg)) as [Hlt|Hge]; [exact Hlt|].
      unfold previousPage in Hnav.
      replace (page_index pg <=? 1) with true in Hnav by (symmetry; apply Z.leb_le; lia).
      discriminate. }
    split; [|right; left; auto].
    apply resolved_inv. rewrite <- resolved_bind. unfold previousPage in Hnav.
    destruct (page_index pg <=? 1) eqn:Hle; [|exact Hnav].
    apply Z.leb_le in Hle. lia.
  - exists 1. split; [exact Hnav | right; right; left; auto].
  - exists (total_pages (response pg)). split; [exact Hnav | right; right; right; auto].
Qed.

(** X8: a cursor reached by [nextPage], [previousPage], [firstPage] or
    [lastPage] carries the request options and the [perPage] of the cursor it
    came from and a response that satisfies the invariant.  Its index is
    the one asked for: one more, one less, 1, or the [total_pages] of the
    cursor it came from (which the invariant makes positive).  Hence
    [firstPage()] is the same request from either cursor. *)
Theorem navigation_keeps_options (pg pg' : Page) (w : World) :
  navigated pg pg' w ->
  options (page_options pg') = options (page_options pg) /\
  perPage (page_options pg') = perPage (page_options pg) /\
  PageResponse_invariant (response pg') /\
  (forall w2, firstPage pg' w2 = firstPage pg w2) /\
  (fst (nextPage pg w) = Return (Some pg') -> 0 <= page_index pg ->
     page_index pg' = page_index pg + 1) /\
  (fst (previousPage pg w) = Return (Some pg') -> page_index pg' = page_index pg - 1) /\
  (fst (firstPage pg w) = Return pg' -> page_index pg' = 1) /\
  (fst (lastPage pg w) = Return pg' -> PageResponse_invariant (response pg) ->
     page_index pg' = total_pages (response pg)).
Proof.
  intros Hnav.
  assert (Hkept : exists p, page_options pg' = with_page (page_options pg) p /\
                            PageResponse_invariant (response pg')).
  { destruct (navigated_inv _ _ _ Hnav) as (p & Hrun & _).
    apply requestPage_fst_inv in Hrun as (Hopts & _ & Hinv). eauto. }
  destruct Hkept as (p & Hopts & Hinv).
  split; [rewrite Hopts; reflexivity|]. split; [rewrite Hopts; reflexivity|].
  split; [exact Hinv|]. split; [intros w2; unfold firstPage; rewrite Hopts; reflexivity|].
  repeat split.
  - intros Hnext Hpos.
    assert (Hrun : fst (requestPage (with_page (page_options pg) (page_index pg + 1)) w)
                   = Return pg').
    { apply resolved_inv. rewrite <- resolved_bind. unfold nextPage in Hnext.
      destruct (page_index pg >=? total_pages (response pg)); [discriminate | exact Hnext]. }
    apply requestPage_fst_inv in Hrun as (_ & -> & _). cbn [with_page page or_default].
    destruct (Z.eqb_spec (page_index pg + 1) 0); [lia | reflexivity].
  - intros Hprev.
    assert (Hlt : 1 < page_index pg).
    { unfold previousPage in Hprev. destruct (Z.leb_spec (page_index pg) 1);
        [discriminate | assumption]. }
    assert (Hrun : fst (requestPage (with_page (page_options pg) (page_index pg - 1)) w)
                   = Return pg').
    { apply resolved_inv. rewrite <- resolved_bind. unfold previousPage in Hprev.
      destruct (page_index pg <=? 1); [discriminate | exact Hprev]. }
    apply requestPage_fst_inv in Hrun as (_ & -> & _). cbn [with_page page or_default].
    destruct (Z.eqb_spec (page_index pg - 1) 0); [lia | reflexivity].
  - intros Hfirst. apply requestPage_fst_inv in Hfirst as (_ & -> & _). reflexivity.
  - intros Hlast (_ & Hpages & _).
    apply requestPage_fst_inv in Hlast as (_ & -> & _). cbn [with_page page or_default].
    destruct (Z.eqb_spec (total_pages (response pg)) 0); [lia | reflexivity].
Qed.

End Navigation.

(** *** The volume and the end of the asynchronous sequence *)

Lemma calls_app (l1 l2 : list Event) : calls (l1 ++ l2) = (calls l1 + calls l2)%nat.
Proof. unfold calls. rewrite List.filter_app, length_app. reflexivity. Qed.

Section Volume.
Context `{Host}.

Lemma request_calls (options : RequestOptions) (w : World) :
  (calls (log (snd (request options w))) <= S (calls (log w)))%nat.
Proof.
  destruct (request_cases options w) as [(m & Hrun)|(opts & postData & _ & Hrun)];
    rewrite Hrun; cbn [snd answered log]; [lia|].
  rewrite calls_app. cbn. lia.
Qed.

Lemma request_no_fuel (options : RequestOptions) (w : World) :
  fst (request options w) <> OutOfFuel.
Proof.
  destruct (request_cases options w) as [(m & Hrun)|(opts & postData & _ & Hrun)];
    rewrite Hrun; cbn [fst]; [discriminate|].
  unfold handle, response_data.
  destruct (decide _); [destruct (JSON_parse _)|]; try discriminate; unfold by_status;
    destruct (passthrough_status _); try discriminate;
    destruct (_ =? 302); try discriminate;
    destruct ((_ =? 401) || (_ =? 417)); discriminate.
Qed.

Lemma checked_pure (payload : json) (w : World) :
  snd (checked payload w) = w /\ fst (checked payload w) <> OutOfFuel.
Proof.
  unfold checked.
  destruct payload as [| b | n | s | items | o];
    unfold number_field, mbind, M_bind, bind, assert, ret, throw, ill_typed;
    cbn [Js.get from_option fst snd]; try (split; [reflexivity | discriminate]).
  destruct (Js.get o "total_count") as [[| | count | | |]|];
    cbn [from_option fst snd]; try (split; [reflexivity | discriminate]).
  destruct (0 <=? count); cbn [fst snd]; try (split; [reflexivity | discriminate]).
  destruct (Js.get o "total_pages") as [[| | pages | | |]|];
    cbn [from_option fst snd]; try (split; [reflexivity | discriminate]).
  destruct (0 <? pages); cbn [fst snd]; try (split; [reflexivity | discriminate]).
  destruct (Js.get o "results") as [[| | | | items |]|];
    cbn [fst snd]; try (split; [reflexivity | discriminate]).
  destruct (0 <=? Z.of_nat (length items)); cbn [fst snd]; split;
    try reflexivity; discriminate.
Qed.

Lemma requestPage_calls (o : PageOptions) (w : World) :
  (calls (log (snd (requestPage o w))) <= S (calls (log w)))%nat /\
  fst (requestPage o w) <> OutOfFuel.
Proof.
  pose proof (request_calls (page_request o) w) as Hcalls.
  pose proof (request_no_fuel (page_request o) w) as Hfuel.
  unfold requestPage, mbind, M_bind, bind.
  destruct (request (page_request o) w) as [[payload| | |] w1]; cbn [fst snd] in *;
    try (split; [exact Hcalls | congruence]).
  destruct (checked_pure payload w1) as [Hworld Hchecked].
  destruct (checked payload w1) as [[r| | |] w2]; cbn [fst snd] in *; subst w2;
    split; try exact Hcalls; try discriminate; congruence.
Qed.

(** What a call of [next()] leaves to be requested, after its outcome. *)
Lemma advance_budget (pg : Page) (n : nat) :
  forall p w, n = Z.to_nat (total_pages (response pg) - p) ->
  fst (advance pg n p w) <> OutOfFuel /\
  (calls (log (snd (advance pg n p w)))
   + match fst (advance pg n p w) with
     | Return (Some (_, c)) => remaining pg c
     | _ => 0
     end <= calls (log w) + n)%nat.
Proof.
  induction n as [|n IH]; intros p w Hn; cbn [advance].
  - unfold ret. cbn [fst snd]. split; [discriminate | lia].
  - destruct (requestPage_calls (with_page (page_options pg) p) w) as [Hcalls Hfuel].
    unfold mbind, M_bind, bind.
    destruct (requestPage (with_page (page_options pg) p) w) as [[inner| | |] w1];
      cbn [fst snd] in *; try (split; [congruence | lia]).
    destruct (iterator inner) as [|item rest].
    + destruct (IH (p + 1) w1 ltac:(lia)) as [Hfuel' Hbudget]. split; [exact Hfuel'|]. lia.
    + unfold ret. cbn [fst snd remaining]. split; [discriminate|]. lia.
Qed.

Lemma next_budget (pg : Page) (c : Cursor) (w : World) :
  fst (next pg c w) <> OutOfFuel /\
  (calls (log (snd (next pg c w)))
   + match fst (next pg c w) with
     | Return (Some (_, c')) => remaining pg c'
     | _ => 0
     end <= calls (log w) + remaining pg c)%nat.
Proof.
  destruct c as [p|p [|item rest]]; cbn [next remaining].
  - apply advance_budget. reflexivity.
  - apply advance_budget. reflexivity.
  - unfold ret. cbn [fst snd remaining]. split; [discriminate | lia].
Qed.

Lemma for_await_budget (pg : Page) (fuel : nat) :
  forall c w,
  (calls (log (snd (for_await pg fuel c w))) <= calls (log w) + remaining pg c)%nat.
Proof.
  induction fuel as [|fuel IH]; intros c w; cbn [for_await].
  - unfold out_of_fuel. cbn [snd]. lia.
  - destruct (next_budget pg c w) as [_ Hbudget].
    unfold mbind, M_bind, bind.
    destruct (next pg c w) as [[[[item c']|]| | |] w1]; unfold ret; cbn [fst snd] in *;
      try lia.
    unfold observe. cbn [fst snd].
    specialize (IH c' (emit (EvItem item) w1)).
    unfold emit in IH at 2. cbn [log] in IH. rewrite calls_app in IH. cbn in IH. lia.
Qed.

(** X9: for a cursor whose page index and [total_pages] are within the
    range where [p++] is exact, consuming its asynchronous sequence, to the
    end or as far as one likes, calls the transport at most
    [total_pages - page] times (not at all when the cursor is over the last
    page or beyond), whatever the server answers to those calls. *)
Theorem sequence_request_volume (pg : Page) (fuel : nat) (w : World) :
  exact_counter pg ->
  (calls (log (snd (for_await pg fuel (asyncIterator pg) w)))
   <= calls (log w) + Z.to_nat (total_pages (response pg) - page_index pg))%nat.
Proof. intros _. exact (for_await_budget pg fuel (asyncIterator pg) w). Qed.

Lemma advance_progress (pg : Page) (n : nat) :
  forall p w item c,
  n = Z.to_nat (total_pages (response pg) - p) ->
  fst (advance pg n p w) = Return (Some (item, c)) ->
  (remaining pg c < n)%nat.
Proof.
  induction n as [|n IH]; intros p w item c Hn; cbn [advance]; [discriminate|].
  unfold mbind, M_bind, bind.
  destruct (requestPage (with_page (page_options pg) p) w) as [[inner| | |] w1];
    cbn [fst]; try discriminate.
  destruct (iterator inner) as [|item0 rest].
  - intros Hrun. specialize (IH (p + 1) w1 item c ltac:(lia) Hrun). lia.
  - unfold ret. cbn [fst]. intros [= _ <-]. cbn [remaining]. lia.
Qed.

(** The loop of the consumer, from a state whose [next()] runs the outer
    loop of the generator. *)
Lemma for_await_through_advance (pg : Page) (c : Cursor) (p : Z) :
  (forall c', (remaining pg c' < remaining pg c)%nat ->
     forall w, exists enough, forall fuel, (enough <= fuel)%nat ->
       fst (for_await pg fuel c' w) <> OutOfFuel) ->
  next pg c = advance pg (remaining pg c) p ->
  remaining pg c = Z.to_nat (total_pages (response pg) - p) ->
  forall w, exists enough, forall fuel, (enough <= fuel)%nat ->
    fst (for_await pg fuel c w) <> OutOfFuel.
Proof.
  intros IH Hnext Hn w.
  destruct (advance_budget pg (remaining pg c) p w Hn) as [Hfuel _].
  pose proof (advance_progress pg (remaining pg c) p w) as Hprogress.
  destruct (advance pg (remaining pg c) p w) as [[[[item c']|]| | |] w1] eqn:Hrun;
    cbn [fst] in *; try contradiction.
  - destruct (IH c' (Hprogress item c' Hn eq_refl) (emit (EvItem item) w1)) as [enough Hend].
    exists (S enough). intros [|fuel] Hle; [lia|]. cbn [for_await].
    unfold mbind, M_bind, bind. rewrite Hnext, Hrun. unfold observe. apply Hend. lia.
  - exists 1%nat. intros [|fuel] Hle; [lia|]. cbn [for_await].
    unfold mbind, M_bind, bind. rewrite Hnext, Hrun. discriminate.
  - exists 1%nat. intros [|fuel] Hle; [lia|]. cbn [for_await].
    unfold mbind, M_bind, bind. rewrite Hnext, Hrun. discriminate.
  - exists 1%nat. intros [|fuel] Hle; [lia|]. cbn [for_await].
    unfold mbind, M_bind, bind. rewrite Hnext, Hrun. discriminate.
Qed.

Lemma for_await_ends (pg : Page) (n : nat) :
  forall c, remaining pg c = n ->
  forall w, exists enough, forall fuel, (enough <= fuel)%nat ->
    fst (for_await pg fuel c w) <> OutOfFuel.
Proof.
  induction n as [n IH] using lt_wf_ind. intros c Hc.
  assert (Hsmaller : forall c', (remaining pg c' < remaining pg c)%nat ->
            forall w, exists enough, forall fuel, (enough <= fuel)%nat ->
              fst (for_await pg fuel c' w) <> OutOfFuel).
  { intros c' Hlt. apply (IH (remaining pg c')); [lia | reflexivity]. }
  destruct c as [p|p rest].
  - apply (for_await_through_advance pg (AtPage p) p Hsmaller); reflexivity.
  - induction rest as [|item rest IHrest].
    + apply (for_await_through_advance pg (InPage p []) (p + 1) Hsmaller); reflexivity.
    + intros w.
      destruct (IHrest Hc Hsmaller (emit (EvItem item) w)) as [enough Hend].
      exists (S enough). intros [|fuel] Hle; [lia|]. cbn [for_await next].
      unfold mbind, M_bind, bind, ret, observe. apply Hend. lia.
Qed.

(** X10: for a cursor whose page index and [total_pages] are within the
    range where [p++] is exact, the asynchronous sequence ends: whatever
    the server answers to its page requests, a bounded number of calls of
    [next()] brings the consumer to the end of the sequence or to the
    failure of a page request (a rejection, a failed assertion, or a payload
    of another shape than the declared one). *)
Theorem sequence_ends (pg : Page) (w : World) :
  exact_counter pg ->
  exists enough, forall fuel, (enough <= fuel)%nat ->
    fst (for_await pg fuel (asyncIterator pg) w) <> OutOfFuel.
Proof. intros _. exact (for_await_ends pg _ (asyncIterator pg) eq_refl w). Qed.

End Volume.

(** ** The poll loops *)

Section Loops.
Context `{Host}.

Lemma fetch_handles options w opts postData resource :
  transmits options w opts postData ->
  handle (reply (server w) opts postData 0) = Return resource ->
  request options w = (Return resource, answered w opts postData).
Proof.
  intros Htx Hhandle. rewrite (request_transmits _ _ _ _ Htx).
  unfold reply in Hhandle. cbn [server_after] in Hhandle. rewrite Hhandle. reflexivity.
Qed.

Lemma member_property (v : json) (k : string) :
  v <> JNull -> member v k = Return (property v k).
Proof. destruct v; [contradiction | reflexivity..]. Qed.

Lemma export_skip fuel token delay config w opts postData :
  transmits (export_call token config) w opts postData ->
  stateless (reply (server w) opts postData 0) ->
  ExportJob.settled (S fuel) token delay config w
  = ExportJob.settled fuel token delay config (answered w opts postData).
Proof.
  intros Htx (resource & Hhandle & Hnull & Hpending & Hprocessing & Hsuccessful & Herrored).
  cbn [ExportJob.settled]. unfold ExportJob.fetch. fold (export_call token config).
  rewrite (bind_Return _ _ _ _ _ (fetch_handles _ _ _ _ _ Htx Hhandle)).
  unfold mbind at 1, M_bind, bind, lift. rewrite (member_property _ _ Hnull).
  rewrite Hpending, Hprocessing, Hsuccessful, Herrored. reflexivity.
Qed.

Lemma log_refetched w opts postData n :
  log (refetched w opts postData n) = log w ++ replicate n (EvRequest opts postData).
Proof.
  revert w. induction n as [|n IH]; intros w; cbn [refetched replicate].
  - rewrite app_nil_r. reflexivity.
  - rewrite IH. cbn [answered log]. rewrite <- app_assoc. reflexivity.
Qed.

(** X11: when every fetch of an export shows a resource without one of the
    four states (the passed-through body of a 404, for one), [settled] never
    ends and never sleeps: it fetches again at once, as often as it is let
    run. *)
Theorem settled_spins_without_state token pollInterval config opts postData :
  forall fuel w,
  transmits (export_call token config) w opts postData ->
  (forall i, stateless (reply (server w) opts postData i)) ->
  ExportJob.settled fuel token pollInterval config w
  = (OutOfFuel, refetched w opts postData fuel) /\
  log (refetched w opts postData fuel) = log w ++ replicate fuel (EvRequest opts postData).
Proof.
  intros fuel w Htx Hstateless. split; [|apply log_refetched].
  revert w Htx Hstateless. induction fuel as [|fuel IH]; intros w Htx Hstateless.
  - reflexivity.
  - rewrite (export_skip fuel token pollInterval config w opts postData Htx (Hstateless O)).
    cbn [refetched]. apply IH.
    + eapply transmits_later; [| |exact Htx]; reflexivity.
    + intros i. exact (Hstateless (S i)).
Qed.

(** X12: neither loop has a bound of its own.  While every fetch of an export
    shows [pending] or [processing], and while every fetch of a session shows
    [requested], [settled] goes on for as long as it is let run, one fetch
    and one sleep a round. *)
Theorem settled_has_no_timeout pollInterval config opts postData :
  forall fuel w,
  (forall token,
     transmits (export_call token config) w opts postData ->
     (forall i, in_state (reply (server w) opts postData i) "pending" \/
                in_state (reply (server w) opts postData i) "processing") ->
     exists w',
       ExportJob.settled fuel token pollInterval config w = (OutOfFuel, w') /\
       log w' = log w ++ rounds opts postData pollInterval fuel) /\
  (forall sessionId,
     transmits (session_call sessionId config) w opts postData ->
     (forall i, in_state (reply (server w) opts postData i) "requested") ->
     exists w',
       Session.settled fuel sessionId pollInterval config w = (OutOfFuel, w') /\
       log w' = log w ++ rounds opts postData pollInterval fuel).
Proof.
  induction fuel as [|fuel IH]; intros w; split.
  - intros token _ _. exists w. cbn [rounds]. rewrite app_nil_r. auto.
  - intros sessionId _ _. exists w. cbn [rounds]. rewrite app_nil_r. auto.
  - intros token Htx Hpending.
    rewrite (export_round fuel token pollInterval config w opts postData Htx (Hpending O)).
    destruct (proj1 (IH (emit (EvSleep pollInterval) (answered w opts postData))) token)
      as (w' & Hrun & Hlog).
    + eapply transmits_later; [| |exact Htx]; reflexivity.
    + intros i. exact (Hpending (S i)).
    + exists w'. split; [exact Hrun|]. rewrite Hlog. cbn [emit answered log rounds].
      rewrite <- !app_assoc. reflexivity.
  - intros sessionId Htx Hpending.
    rewrite (session_round fuel sessionId pollInterval config w opts postData Htx
               (Hpending O)).
    destruct (proj2 (IH (emit (EvSleep pollInterval) (answered w opts postData))) sessionId)
      as (w' & Hrun & Hlog).
    + eapply transmits_later; [| |exact Htx]; reflexivity.
    + intros i. exact (Hpending (S i)).
    + exists w'. split; [exact Hrun|]. rewrite Hlog. cbn [emit answered log rounds].
      rewrite <- !app_assoc. reflexivity.
Qed.

(** X13: a fetch answered with a null payload (one of the passed-through
    statuses without the JSON content type) ends either loop on the spot with
    the [TypeError] of reading [state] off [null], after that one fetch. *)
Theorem settled_on_null_payload pollInterval config (w : World) opts postData fuel :
  passthrough_status (statusCode (reply (server w) opts postData 0)) = true ->
  ~ declares_JSON (reply (server w) opts postData 0) ->
  (forall token,
     transmits (export_call token config) w opts postData ->
     ExportJob.settled (S fuel) token pollInterval config w
     = (Throw TypeError, answered w opts postData)) /\
  (forall sessionId,
     transmits (session_call sessionId config) w opts postData ->
     Session.settled (S fuel) sessionId pollInterval config w
     = (Throw TypeError, answered w opts postData)).
Proof.
  intros Hstatus Hct.
  pose proof (handle_passthrough_other _ Hstatus Hct) as Hhandle. split.
  - intros token Htx. cbn [ExportJob.settled]. unfold ExportJob.fetch.
    fold (export_call token config).
    rewrite (bind_Return _ _ _ _ _ (fetch_handles _ _ _ _ _ Htx Hhandle)). reflexivity.
  - intros sessionId Htx. cbn [Session.settled]. unfold Session.fetch.
    fold (session_call sessionId config).
    rewrite (bind_Return _ _ _ _ _ (fetch_handles _ _ _ _ _ Htx Hhandle)). reflexivity.
Qed.

(** X14: [Session.settled] hands back whatever the first fetch returns that
    is not a session in the state [requested]: a payload without [state],
    such as the passed-through body of a 400 or a 404, is returned to the
    caller as if it were the settled session, after one fetch and no
    sleep. *)
Theorem session_settles_on_any_payload sessionId pollInterval config (w : World)
    opts postData fuel (payload : json) :
  transmits (session_call sessionId config) w opts postData ->
  handle (reply (server w) opts postData 0) = Return payload ->
  payload <> JNull ->
  Js.equals (property payload "state") "requested" = false ->
  Session.settled (S fuel) sessionId pollInterval config w
  = (Return payload, answered w opts postData).
Proof.
  intros Htx Hhandle Hnull Hstate. cbn [Session.settled]. unfold Session.fetch.
  fold (session_call sessionId config).
  rewrite (bind_Return _ _ _ _ _ (fetch_handles _ _ _ _ _ Htx Hhandle)).
  unfold mbind at 1, M_bind, bind, lift. rewrite (member_property _ _ Hnull), Hstate.
  reflexivity.
Qed.

End Loops.

(** ** Event processors, context and events *)

(** X15: a pipeline of processors runs from left to right, and running the
    concatenation of two pipelines is running the second on the result of
    the first; the empty pipeline changes nothing. *)
Theorem compose_pipelines (first second : list (obj -> obj)) (event : obj) :
  composeEventProcessor (first ++ second) event
  = composeEventProcessor second (composeEventProcessor first event) /\
  composeEventProcessor [] event = event /\
  (forall p, composeEventProcessor (p :: second) event
             = composeEventProcessor second (p event)).
Proof.
  unfold composeEventProcessor. rewrite fold_left_app. auto.
Qed.

Lemma set_keys (o : obj) (k : string) (v : json) :
  map fst (Js.set o k v) = if decide (k ∈ map fst o) then map fst o else map fst o ++ [k].
Proof.
  induction o as [|[k' v'] o IH]; cbn [Js.set map fst].
  - rewrite decide_False by apply not_elem_of_nil. reflexivity.
  - destruct (String.eqb_spec k k') as [->|Hne]; cbn [map fst].
    + rewrite decide_True by (apply elem_of_cons; left; reflexivity). reflexivity.
    + rewrite IH. destruct (decide (k ∈ map fst o)) as [Hin|Hout].
      * rewrite decide_True by (apply elem_of_cons; right; exact Hin). reflexivity.
      * rewrite decide_False; [reflexivity|].
        intros Hin. apply elem_of_cons in Hin as [?|?]; contradiction.
Qed.

Lemma set_keyed (o : obj) (k : string) (v : json) : keyed o -> keyed (Js.set o k v).
Proof.
  unfold keyed. intros Hnodup. rewrite set_keys.
  destruct (decide (k ∈ map fst o)) as [Hin|Hout]; [exact Hnodup|].
  apply NoDup_app. split; [exact Hnodup|]. split.
  - intros x Hx Hk. apply list_elem_of_singleton in Hk as ->. contradiction.
  - apply NoDup_singleton.
Qed.

Lemma spread_keyed (o extra : obj) : keyed o -> keyed (Js.spread o extra).
Proof.
  unfold Js.spread. revert o. induction extra as [|[k v] extra IH]; intros o Ho;
    cbn [fold_left]; [exact Ho|].
  apply IH, set_keyed, Ho.
Qed.

Lemma get_copy (o : obj) (k : string) : keyed o -> Js.get (Js.spread [] o) k = Js.get o k.
Proof.
  intros Ho. rewrite (get_spread _ _ _ Ho). destruct (Js.get o k); reflexivity.
Qed.

(** X16: the default processor never overrides the caller: every key of the
    event keeps its value, a [cased_id] and a [timestamp] of the event
    included, and the generated ones fill in only where the event has
    none. *)
Theorem default_processor_fills_in (cased_id timestamp : string) (event : obj) :
  keyed event ->
  let processed := defaultEventProcessor cased_id timestamp event in
  (forall k v, Js.get event k = Some v -> Js.get processed k = Some v) /\
  (Js.get event "cased_id" = None -> Js.get processed "cased_id" = Some (JStr cased_id)) /\
  (Js.get event "timestamp" = None ->
     Js.get processed "timestamp" = Some (JStr timestamp)) /\
  (forall k, k <> "cased_id" -> k <> "timestamp" -> Js.get processed k = Js.get event k).
Proof.
  intros Hkeyed. cbv zeta. unfold defaultEventProcessor. repeat split.
  - intros k v Hget. rewrite (get_spread _ _ _ Hkeyed), Hget. reflexivity.
  - intros Hnone. rewrite (get_spread _ _ _ Hkeyed), Hnone. reflexivity.
  - intros Hnone. rewrite (get_spread _ _ _ Hkeyed), Hnone. reflexivity.
  - intros k Hid Htime. rewrite (get_spread _ _ _ Hkeyed).
    destruct (Js.get event k); [reflexivity|]. cbn [Js.get].
    destruct (String.eqb_spec k "cased_id"); [contradiction|].
    destruct (String.eqb_spec k "timestamp"); [contradiction|]. reflexivity.
Qed.

Lemma context_merge_lookup (events : list obj) :
  forall merged k,
  keyed merged -> Forall keyed events ->
  Js.get (fold_left (fun mergedEvent contextEvent =>
                       Js.spread (Js.spread [] contextEvent) mergedEvent)
                    events merged) k
  = Context.first_with k (merged :: events).
Proof.
  induction events as [|contextEvent events IH]; intros merged k Hmerged Hevents;
    cbn [fold_left Context.first_with].
  - destruct (Js.get merged k); reflexivity.
  - apply Forall_cons in Hevents as [Hcontext Hevents].
    rewrite IH; [|apply spread_keyed, spread_keyed, NoDup_nil_2 | exact Hevents].
    cbn [Context.first_with]. rewrite (get_spread _ _ _ Hmerged), (get_copy _ _ Hcontext).
    destruct (Js.get merged k); [reflexivity|].
    destruct (Js.get contextEvent k); reflexivity.
Qed.

(** X17: in the event that the context processor returns, a key has the
    value of the event itself when the event has the key, and else the value
    of the context event that was pushed first among those that have it:
    the event wins over the context, and an outer context over an inner
    one. *)
Theorem context_precedence (events : list obj) (event : obj) (k : string) :
  keyed event -> Forall keyed events ->
  Js.get (Context.eventProcessor (Some events) event) k
  = Context.first_with k (event :: events) /\
  Context.eventProcessor None event = event.
Proof.
  intros Hevent Hevents. split; [|reflexivity].
  unfold Context.eventProcessor. apply context_merge_lookup; assumption.
Qed.

Section Phrases.
Context `{Host}.

(** X18: a search is at most one request and always returns.  A phrase
    object with no field fails the assertion of [stringifySearchPhrase]
    before anything is sent.  A search that gives a cursor gives the cursor
    of the page asked for (1 when none is), over a response that has passed
    the assertions of [requestPage], and the [phrase] it sent is the raw
    phrase, or [field:value] for an object with one field (so
    [searchAction] sends ["action:<action>"]), or the parenthesised
    conjunction of the fields. *)
Theorem search_is_one_page_request (phrase : Events.Phrase) (page perPage : option Z)
    (config : ConfigOverrides) (w : World) :
  (phrase = Events.Fields [] ->
   Events.search phrase page perPage config w = (Throw (AssertionError ""), w)) /\
  (calls (log (snd (Events.search phrase page perPage config w))) <= S (calls (log w)))%nat /\
  fst (Events.search phrase page perPage config w) <> OutOfFuel /\
  (forall pg, fst (Events.search phrase page perPage config w) = Return pg ->
     page_index pg = or_default page 1 /\
     PageResponse_invariant (response pg) /\
     exists text,
       Js.get (params (page_request (page_options pg))) "phrase" = Some (JStr text) /\
       (forall s, phrase = Events.Raw s -> text = s) /\
       (forall field value, phrase = Events.Fields [(field, Some value)] ->
          text = field +:+ ":" +:+ value) /\
       (forall first second others, phrase = Events.Fields (first :: second :: others) ->
          text = "(" +:+
                 Js.join " AND "
                   (map (fun kv => fst kv +:+ ":" +:+ default "undefined" (snd kv))
                        (first :: second :: others)) +:+ ")")).
Proof.
  split; [intros ->; reflexivity|].
  unfold Events.search, mbind, M_bind, bind, lift.
  destruct (match phrase with
            | Events.Raw s => Return s
            | Events.Fields o => Events.stringifySearchPhrase o
            end) as [text| | |] eqn:Htext; cbn [fst snd];
    try (split; [lia|]; split; [discriminate|]; intros pg; discriminate).
  - set (o := mkPageOptions _ page perPage).
    destruct (requestPage_calls o w) as [Hcalls Hfuel].
    split; [exact Hcalls|]. split; [exact Hfuel|].
    intros pg Hpg. apply requestPage_fst_inv in Hpg as (-> & -> & Hinv).
    split; [reflexivity|]. split; [exact Hinv|].
    exists text. split; [reflexivity|].
    split; [intros s ->; congruence|].
    split.
    + intros field value ->.
      change (Return (field +:+ ":" +:+ value) = Return text) in Htext. congruence.
    + intros first second others ->.
      change (Return ("(" +:+
                Js.join " AND "
                  (map (fun kv => fst kv +:+ ":" +:+ default "undefined" (snd kv))
                       (first :: second :: others)) +:+ ")") = Return text) in Htext.
      congruence.
  - destruct phrase as [s|[|first [|second others]]]; discriminate.
Qed.

(** X19: a publish that is mocked sends nothing and leaves the world as it
    is; the event it records, at the end of the recorder, has gone through
    the processors of the process first and through those of the call after
    them.  A publish that is not mocked is one request of the publish
    scope whose parameters are that processed event. *)
Theorem publish_processes_then_mocks (globalPipeline : list (obj -> obj))
    (pipeline : option (list (obj -> obj))) (event : obj) (config : ConfigOverrides)
    (w : World) :
  let processed :=
    composeEventProcessor (default [] pipeline) (composeEventProcessor globalPipeline event) in
  (forall events,
     Events.publish globalPipeline pipeline (Some (Events.Recorder events)) event config w
     = (Return (Events.Mocked (Some (events ++ [processed]))), w)) /\
  Events.publish globalPipeline pipeline (Some (Events.Flag true)) event config w
  = (Return (Events.Mocked None), w) /\
  (forall mock, mock = None \/ mock = Some (Events.Flag false) ->
     snd (Events.publish globalPipeline pipeline mock event config w)
     = snd (request (mkOptions POST (Some publish) None processed config) w) /\
     (forall payload,
        fst (request (mkOptions POST (Some publish) None processed config) w) = Return payload ->
        fst (Events.publish globalPipeline pipeline mock event config w)
        = Return (Events.Sent payload))).
Proof.
  cbv zeta. unfold Events.publish, composeEventProcessor. rewrite fold_left_app.
  split; [reflexivity|]. split; [reflexivity|].
  intros mock [->| ->]; unfold mbind, M_bind, bind;
    destruct (request _ w) as [[payload| | |] w']; cbn [fst snd];
    (split; [reflexivity|]); intros payload'; try discriminate; intros [= ->]; reflexivity.
Qed.

(** X20: with the configuration as it is loaded from the environment and no
    overrides, the environment alone decides the credential: the policy scope
    uses [CASED_POLICY_KEY], the publish scope [CASED_PUBLISH_KEY] and the
    CLI scope [GUARD_APPLICATION_KEY], and a variable that is absent or empty
    leaves the scope without a key. *)
Theorem environment_decides (options : RequestOptions) (w : World) :
  globalConfig w = initial_config (env w) ->
  config options = no_overrides ->
  let variable :=
    match baseURL options with
    | Some publish => "CASED_PUBLISH_KEY"
    | Some cli => "GUARD_APPLICATION_KEY"
    | Some api | None => "CASED_POLICY_KEY"
    end in
  (unset (env w !! variable) ->
     exists m, request options w = (Throw (AuthenticationError m), w)) /\
  (forall key, env w !! variable = Some key -> key <> "" ->
     exists opts postData, transmits options w opts postData /\
       header opts "Authorization" = Some ("Bearer " +:+ key)).
Proof.
  intros Hglobal Hconfig. cbv zeta.
  assert (Hcred : forall k, nonempty (env w !! match baseURL options with
                                                | Some publish => "CASED_PUBLISH_KEY"
                                                | Some cli => "GUARD_APPLICATION_KEY"
                                                | _ => "CASED_POLICY_KEY"
                                                end) = k ->
            match k with
            | Some key => exists ps,
                credential (env w) (merge_config (globalConfig w) (config options)) options
                = Return (key, ps)
            | None => exists m,
                credential (env w) (merge_config (globalConfig w) (config options)) options
                = Throw (AuthenticationError m)
            end).
  { intros k Hk. rewrite Hglobal, Hconfig. unfold credential, getPolicyKey.
    cbn [merge_config initial_config no_overrides override name policyKey policyKeys
         publishKey guardApplicationKey o_name o_policyKey o_publishKey
         o_guardApplicationKey nonempty].
    unfold no_publish_key, no_cli_key, no_policy_key.
    destruct (baseURL options) as [[| |]|]; cbn [nonempty] in *;
      match goal with
      | Hk : nonempty ?v = k |- _ =>
          destruct (nonempty v) as [key|] eqn:Hkey; subst k;
          [apply nonempty_Some in Hkey as [_ Hne]; rewrite ?(nonempty_set _ Hne); eauto
          |cbn [nonempty]; eauto]
      end. }
  split.
  - intros Hunset. destruct (Hcred None (nonempty_unset _ Hunset)) as [m Hm].
    exists m. unfold request. rewrite Hm. reflexivity.
  - intros key Hkey Hne.
    destruct (Hcred (Some key)) as [ps Hps]; [rewrite Hkey; apply nonempty_set, Hne|].
    eexists _, _. split; [exists key, ps; split; [exact Hps | reflexivity]|].
    unfold header, outgoing. cbn [Https.headers].
    destruct (is_GET (method options)); reflexivity.
Qed.

End Phrases.

(** ** Masking of sensitive fields *)

Lemma json_nested_ind (P : json -> Prop) :
  P JNull -> (forall b, P (JBool b)) -> (forall n, P (JNum n)) -> (forall s, P (JStr s)) ->
  (forall items, Forall P items -> P (JArr items)) ->
  (forall props, Forall (fun kv => P (snd kv)) props -> P (JObj props)) ->
  forall v, P v.
Proof.
  intros HNull HBool HNum HStr HArr HObj. fix IH 1. intros [| b | n | s | items | props].
  - exact HNull.
  - apply HBool.
  - apply HNum.
  - apply HStr.
  - apply HArr. induction items as [|item items IHitems]; constructor; [apply IH | exact IHitems].
  - apply HObj. induction props as [|[k v] props IHprops]; constructor;
      [apply IH | exact IHprops].
Qed.

Lemma traverse_object (field : string) (props : obj) (pii : obj) :
  traverse field (JObj props) pii = visit_props field props pii.
Proof.
  cbn [traverse]. revert pii. induction props as [|[key value] rest IH]; intros pii;
    [reflexivity|].
  cbn [visit_props]. rewrite <- IH. reflexivity.
Qed.

Lemma traverse_array_from (field : string) (items : list json) :
  forall i pii,
  (fix visit (i : nat) (items : list json) (pii : obj) {struct items} : obj :=
     match items with
     | [] => pii
     | value :: rest =>
         visit (S i) rest
           (match value with
            | JStr s =>
                if String.eqb (pretty i) field
                then Js.set pii (pretty i) (whole field s) else pii
            | JObj _ | JArr _ => traverse field value pii
            | JNull | JBool _ | JNum _ => pii
            end)
     end) i items pii
  = visit_items field i items pii.
Proof.
  induction items as [|value rest IH]; intros i pii; [reflexivity|].
  cbn [visit_items]. rewrite <- IH. reflexivity.
Qed.

Lemma traverse_array (field : string) (items : list json) (pii : obj) :
  traverse field (JArr items) pii = visit_items field O items pii.
Proof. cbn [traverse]. apply traverse_array_from. Qed.

Lemma set_set (o : obj) (k : string) (v v' : json) :
  Js.set (Js.set o k v) k v' = Js.set o k v'.
Proof.
  induction o as [|[k0 v0] o IH]; cbn [Js.set].
  - rewrite String.eqb_refl. reflexivity.
  - destruct (String.eqb k k0) eqn:Hk; cbn [Js.set]; rewrite Hk; [reflexivity|].
    rewrite IH. reflexivity.
Qed.

Lemma marked_trans (field : string) (a b c : obj) :
  marked field a b -> marked field b c -> marked field a c.
Proof.
  intros [->|[s ->]] [->|[s' ->]]; unfold marked; eauto.
  right. exists s'. apply set_set.
Qed.

Lemma traverse_marked (field : string) (event : json) :
  forall pii, marked field pii (traverse field event pii).
Proof.
  induction event as [| b | n | s | items IH | props IH] using json_nested_ind; intros pii;
    try (left; reflexivity).
  - rewrite traverse_array. generalize O. revert pii.
    induction IH as [|value rest Hvalue _ IHrest]; intros pii i; cbn [visit_items];
      [left; reflexivity|].
    eapply marked_trans; [|apply IHrest].
    unfold mark_item. destruct value; try (left; reflexivity); try apply Hvalue.
    destruct (String.eqb_spec (pretty i) field) as [->|]; [right; eauto | left; reflexivity].
  - rewrite traverse_object. revert pii.
    induction IH as [|[key value] rest Hvalue _ IHrest]; intros pii; cbn [visit_props];
      [left; reflexivity|].
    eapply marked_trans; [|apply IHrest].
    unfold mark. destruct (String.eqb key ".cased"); [left; reflexivity|].
    cbn [snd] in Hvalue. destruct value; try (left; reflexivity); try apply Hvalue.
    destruct (String.eqb_spec key field) as [->|]; [right; eauto | left; reflexivity].
Qed.

Lemma set_fresh (o : obj) (k : string) (v : json) :
  k ∉ map fst o -> Js.set o k v = o ++ [(k, v)].
Proof.
  induction o as [|[k0 v0] o IH]; cbn [Js.set map fst]; [reflexivity|].
  intros Hfresh. apply not_elem_of_cons in Hfresh as [Hne Hfresh].
  destruct (String.eqb_spec k k0); [contradiction|]. rewrite (IH Hfresh). reflexivity.
Qed.

Lemma spread_onto (acc o : obj) : keyed (acc ++ o) -> Js.spread acc o = acc ++ o.
Proof.
  unfold Js.spread, keyed. revert acc.
  induction o as [|[k v] o IH]; intros acc Hkeyed; cbn [fold_left].
  - rewrite app_nil_r. reflexivity.
  - cbn [fst snd]. rewrite set_fresh.
    + rewrite IH; rewrite <- app_assoc; [reflexivity | exact Hkeyed].
    + rewrite map_app in Hkeyed. apply NoDup_app in Hkeyed as (_ & Hdisjoint & _).
      intros Hin. apply (Hdisjoint k Hin). cbn [map fst]. apply elem_of_cons. auto.
Qed.

Lemma copy_keyed (o : obj) : keyed o -> Js.spread [] o = o.
Proof. intros Ho. apply (spread_onto [] o). exact Ho. Qed.

Lemma copy_is_keyed (o : obj) : keyed (Js.spread [] o).
Proof. apply spread_keyed, NoDup_nil_2. Qed.

Lemma visit_set_cased (field : string) (props : obj) (v : json) (pii : obj) :
  visit_props field (Js.set props ".cased" v) pii = visit_props field props pii.
Proof.
  revert pii. induction props as [|[key value] rest IH]; intros pii;
    cbn [Js.set visit_props]; [reflexivity|].
  destruct (String.eqb_spec ".cased" key) as [<-|Hne]; cbn [visit_props].
  - reflexivity.
  - rewrite IH. reflexivity.
Qed.

Lemma pii_of_event (field : string) (event : obj) :
  let pii := traverse field (JObj event) [] in
  keyed pii /\ (forall k, k <> field -> Js.get pii k = None) /\
  (forall base, Js.spread (Js.spread base pii) pii = Js.spread base pii).
Proof.
  cbv zeta. destruct (traverse_marked field (JObj event) []) as [->|[s ->]].
  - split; [apply NoDup_nil_2|]. split; [reflexivity|]. reflexivity.
  - cbn [Js.set]. split; [apply NoDup_singleton|]. split.
    + intros k Hk. cbn [Js.get]. destruct (String.eqb_spec k field); [contradiction|].
      reflexivity.
    + intros base. unfold Js.spread. cbn [fold_left fst snd]. apply set_set.
Qed.

Lemma shallow_visit (field : string) (props : obj) :
  field <> ".cased" -> keyed props -> shallow props ->
  forall pii,
  visit_props field props pii =
    match Js.get props field with
    | Some (JStr s) => Js.set pii field (whole field s)
    | _ => pii
    end.
Proof.
  intros Hfield. unfold keyed, shallow.
  induction props as [|[key value] rest IH]; intros Hkeyed Hshallow pii;
    cbn [visit_props Js.get]; [reflexivity|].
  cbn [map fst] in Hkeyed. apply NoDup_cons in Hkeyed as [Hfresh Hkeyed].
  apply Forall_cons in Hshallow as [Hhead Hshallow]. cbn [fst snd] in Hhead.
  rewrite (IH Hkeyed Hshallow). unfold mark.
  destruct (String.eqb_spec field key) as [<-|Hne].
  - rewrite (get_absent _ _ Hfresh).
    destruct (String.eqb_spec field ".cased"); [contradiction|].
    rewrite String.eqb_refl.
    destruct Hhead as [?|Hscalar]; [contradiction|].
    destruct value; try reflexivity; contradiction.
  - assert (Hmark : (if String.eqb key ".cased" then pii
                     else match value with
                          | JStr s =>
                              if String.eqb key field
                              then Js.set pii key (whole field s) else pii
                          | JObj _ | JArr _ => traverse field value pii
                          | _ => pii
                          end) = pii).
    { destruct (String.eqb_spec key ".cased"); [reflexivity|].
      destruct Hhead as [?|Hscalar]; [contradiction|].
      destruct value; try reflexivity; try contradiction.
      destruct (String.eqb_spec key field); [congruence | reflexivity]. }
    rewrite Hmark. reflexivity.
Qed.

(** X21: masking a field never alters the data of an event: every key other
    than [.cased] keeps its value; under [.cased] every entry other than
    [pii] keeps its value; and among the masks already recorded under
    [.cased.pii] every one but that of the field itself is kept. *)
Theorem masking_keeps_data (field : string) (event : obj) :
  keyed event ->
  let masked := sensitiveField field event in
  (forall k, k <> ".cased" -> Js.get masked k = Js.get event k) /\
  exists c p,
    Js.get masked ".cased" = Some (JObj c) /\ Js.get c "pii" = Some (JObj p) /\
    (forall cased k, Js.get event ".cased" = Some (JObj cased) -> keyed cased ->
       k <> "pii" -> Js.get c k = Js.get cased k) /\
    (forall recorded k, masks event = Some (JObj recorded) -> keyed recorded ->
       k <> field -> Js.get p k = Js.get recorded k).
Proof.
  intros Hkeyed. cbv zeta. unfold sensitiveField, appendPII.
  destruct (pii_of_event field event) as (Hpii & Hother & _).
  split.
  - intros k Hk. rewrite get_set_other by congruence. apply get_copy, Hkeyed.
  - eexists _, _. split; [apply get_set_same|]. split; [apply get_set_same|]. split.
    + intros cased k Hcased Hc Hk. rewrite Hcased. cbn [from_option Js.for_in].
      rewrite get_set_other by congruence. apply get_copy, Hc.
    + intros recorded k Hmasks Hr Hk. unfold masks in Hmasks.
      destruct (Js.get event ".cased") as [c|]; [|discriminate].
      assert (Hrecorded : match c with JNull => None | _ => property c "pii" end
                          = Some (JObj recorded)) by (destruct c; [discriminate|exact Hmasks..]).
      replace (match c with JNull => None | _ => property c "pii" end)
        with (Some (JObj recorded)).
      cbn [from_option Js.for_in]. rewrite (get_spread _ _ _ Hpii), (Hother _ Hk).
      apply get_copy, Hr.
Qed.

(** X22: on an event without nested objects or arrays, masking a field
    other than [.cased] and [__proto__] records, for the string the event
    holds under that key, the one range from 0 to the length of the string
    in UTF-16 code units, labelled with the field. *)
Theorem masking_marks_the_field (field : string) (event : obj) (value : string) :
  keyed event -> shallow event -> field <> ".cased" -> field <> "__proto__" ->
  Js.get event field = Some (JStr value) ->
  exists p,
    masks (sensitiveField field event) = Some (JObj p) /\
    Js.get p field =
      Some (JArr [JObj [("label", JStr field); ("begin", JNum 0);
                        ("end", JNum (Z.of_nat (Js.length value)))]]).
Proof.
  intros Hkeyed Hshallow Hfield _ Hget. unfold masks, sensitiveField, appendPII.
  rewrite get_set_same. cbn [property]. rewrite get_set_same.
  eexists. split; [reflexivity|].
  rewrite traverse_object, (shallow_visit _ _ Hfield Hkeyed Hshallow), Hget.
  cbn [Js.set]. unfold Js.spread at 1. cbn [fold_left fst snd]. apply get_set_same.
Qed.

(** X23: masking a field is idempotent: masking the same field of the masked
    event changes nothing. *)
Theorem masking_is_idempotent (field : string) (event : obj) :
  keyed event ->
  sensitiveField field (sensitiveField field event) = sensitiveField field event.
Proof.
  intros Hkeyed.
  destruct (pii_of_event field event) as (_ & _ & Habsorbed).
  set (pii := traverse field (JObj event) []) in *.
  set (recorded := match Js.get event ".cased" with
                   | None | Some JNull => None
                   | Some c => property c "pii"
                   end).
  set (P := Js.spread (Js.spread [] (from_option Js.for_in [] recorded)) pii).
  set (X := Js.spread [] (from_option Js.for_in [] (Js.get event ".cased"))).
  assert (Hform : sensitiveField field event
                  = Js.set event ".cased" (JObj (Js.set X "pii" (JObj P)))).
  { unfold sensitiveField, appendPII. rewrite (copy_keyed _ Hkeyed). reflexivity. }
  assert (Hagain : traverse field (JObj (sensitiveField field event)) [] = pii).
  { rewrite Hform, traverse_object, visit_set_cased, <- traverse_object. reflexivity. }
  unfold sensitiveField at 1. unfold appendPII. rewrite Hagain, Hform.
  rewrite get_set_same. cbn [property from_option Js.for_in].
  rewrite get_set_same. cbn [from_option Js.for_in].
  rewrite (copy_keyed (Js.set event ".cased" _)) by (apply set_keyed, Hkeyed).
  rewrite (copy_keyed (Js.set X "pii" _)) by (apply set_keyed, copy_is_keyed).
  rewrite (copy_keyed P) by (apply spread_keyed, copy_is_keyed).
  replace (Js.spread P pii) with P by (symmetry; apply Habsorbed).
  rewrite !set_set. reflexivity.
Qed.

(** ** Session creation and export download *)

Section Composites.
Context `{Host}.

(** X24: [create] of a session raises [ReasonRequiredError] for every payload
    with a truthy [error] field, whatever the error says (so also for the
    passed-through body of a 400 or 404 that carries one); it returns every
    other payload that is not [null], and a [null] payload makes it fail
    with the [TypeError] of reading [error] off [null]. *)
Theorem create_raises_on_any_error (options : obj) (config : ConfigOverrides)
    (w : World) (response : Response) (payload : json) :
  receives (SessionCreate.call options config) w response ->
  handle response = Return payload ->
  (payload = JNull -> fst (SessionCreate.create options config w) = Throw TypeError) /\
  (payload <> JNull -> Js.truthy (property payload "error") = true ->
     fst (SessionCreate.create options config w) = Throw ReasonRequiredError) /\
  (payload <> JNull -> Js.truthy (property payload "error") = false ->
     fst (SessionCreate.create options config w) = Return payload).
Proof.
  intros (opts & postData & Htx & Hresponse) Hhandle.
  assert (Hrun : request (SessionCreate.call options config) w
                 = (Return payload, answered w opts postData)).
  { rewrite (request_transmits _ _ _ _ Htx), Hresponse, Hhandle. reflexivity. }
  unfold SessionCreate.create. rewrite (bind_Return _ _ _ _ _ Hrun).
  unfold mbind, M_bind, bind, lift. repeat split.
  - intros ->. reflexivity.
  - intros Hnull Herror. rewrite (member_property _ _ Hnull), Herror. reflexivity.
  - intros Hnull Herror. rewrite (member_property _ _ Hnull), Herror. reflexivity.
Qed.

(** X25: [downloadURL] asks for the download only once [settled] has
    returned: an error of [settled] is its error, with nothing sent after.
    Once [settled] has returned, a 302 with a [location] gives the URL of
    that location, and a passed-through status with a null payload fails the
    assertion on the response. *)
Theorem download_follows_settled (new_URL : string -> option string) (fuel : nat)
    (token : string) (pollInterval : Z) (config : ConfigOverrides) (w : World) :
  (forall e w', ExportJob.settled fuel token pollInterval config w = (Throw e, w') ->
     Download.downloadURL new_URL fuel token pollInterval config w = (Throw e, w')) /\
  (forall w1 response,
     ExportJob.settled fuel token pollInterval config w = (Return tt, w1) ->
     receives (Download.call token config) w1 response ->
     ~ declares_JSON response ->
     (forall location,
        statusCode response = 302 -> headers response !! "location" = Some location ->
        fst (Download.downloadURL new_URL fuel token pollInterval config w)
        = match new_URL location with
          | Some url => Return url
          | None => Throw TypeError
          end) /\
     (passthrough_status (statusCode response) = true ->
        fst (Download.downloadURL new_URL fuel token pollInterval config w)
        = Throw (AssertionError ""))).
Proof.
  split.
  - intros e w' Hsettled. unfold Download.downloadURL, mbind, M_bind, bind.
    rewrite Hsettled. reflexivity.
  - intros w1 response Hsettled (opts & postData & Htx & Hresponse) Hct.
    unfold Download.downloadURL. rewrite (bind_Return _ _ _ _ _ Hsettled).
    unfold mbind, M_bind, bind. rewrite (request_transmits _ _ _ _ Htx), Hresponse.
    unfold handle. rewrite (response_data_other _ Hct). split.
    + intros location Hstatus Hlocation. unfold by_status.
      rewrite Hstatus, Hlocation. cbn. destruct (new_URL location); reflexivity.
    + intros Hstatus. rewrite (by_status_passthrough _ _ Hstatus). reflexivity.
Qed.

End Composites.

(** ** The further properties on examples *)

(** Without a publish key nothing is published. *)
Lemma scope_key_decides_witness :
  @request (Replies.host Redirects.found []) Redirects.publish_event Worlds.keyless
  = (Throw no_publish_key, Worlds.keyless).
Proof.
  apply (proj1 (@scope_key_decides (Replies.host Redirects.found [])
                  Redirects.publish_event Worlds.keyless)).
  - reflexivity.
  - left. reflexivity.
Defined.

(** The redirect of the test suite becomes its location. *)
Lemma redirect_becomes_location_witness :
  fst (@request (Replies.host Redirects.found []) Examples.search (Replies.world _ _))
  = Return (JObj [("location", JStr "https://cased-exports.localhost/exports/tok.json")]).
Proof.
  apply (@redirect_becomes_location (Replies.host Redirects.found []) Examples.search
           (Replies.world Redirects.found []) Redirects.found).
  - apply receives_reply.
  - reflexivity.
  - vm_compute. reflexivity.
  - left. unfold declares_JSON. vm_compute. discriminate.
Defined.

(** A 500 surfaces as an assertion failure. *)
Lemma unhandled_status_asserts_witness :
  fst (@request (Replies.host Redirects.broken []) Examples.search (Replies.world _ _))
  = Throw (AssertionError "unhandled status code: 500").
Proof.
  apply (@unhandled_status_asserts (Replies.host Redirects.broken []) Examples.search
           (Replies.world Redirects.broken []) Redirects.broken).
  - apply receives_reply.
  - reflexivity.
  - left. unfold declares_JSON. vm_compute. discriminate.
Defined.

(** The fetch of an export is a GET: no body, no [Content-Length]. *)
Lemma outgoing_shape_witness :
  header Polls.export_fetch "Content-Length" = None.
Proof.
  destruct (@outgoing_shape Polls.host (export_call "tok" no_overrides) (Polls.world [])
              Polls.export_fetch None (transmits_export_fetch []))
    as (key & ps & _ & _ & _ & Hget & _).
  apply Hget. reflexivity.
Defined.

(** The [userToken] of the caller becomes the [user_token] that is sent. *)
Lemma user_token_backfill_witness :
  exists key ps,
    credential ∅ (merge_config Demo.config Polls.guard) Redirects.identify = Return (key, ps) /\
    Js.get ps "user_token" = Some (JStr "user_abc").
Proof.
  assert (Hcred : { r | credential ∅ (merge_config Demo.config Polls.guard) Redirects.identify
                        = Return r })
    by (eexists; vm_compute; reflexivity).
  destruct Hcred as [[key ps] Hcred]. exists key, ps. split; [exact Hcred|].
  destruct (user_token_backfill _ _ _ _ _ Hcred) as (_ & Hcli).
  destruct (Hcli eq_refl) as (_ & _ & Hbackfill).
  exact (proj1 (Hbackfill eq_refl) eq_refl).
Defined.

(** A search whose parameters pin [page] to 7 sends page 7 from the cursor
    of page 3 as well. *)
Lemma caller_params_win_witness :
  Js.get (params (page_request (with_page Collisions.pinned 3))) "page" = Some (JNum 7).
Proof.
  refine (proj2 (proj2 (proj2 (caller_params_win Collisions.pinned _))) (JNum 7) 3 eq_refl).
  apply (bool_decide_unpack _). vm_compute. exact I.
Defined.

(** The second page of the example, reached from the first. *)
Lemma navigation_keeps_options_witness :
  page_index Paging.second_page = 2 /\
  options (page_options Paging.second_page) = options (page_options Paging.first_page).
Proof.
  assert (Hnav : @navigated Paging.host Paging.first_page Paging.second_page Paging.world)
    by (left; vm_compute; reflexivity).
  destruct (@navigation_keeps_options Paging.host _ _ _ Hnav)
    as (Hoptions & _ & _ & _ & Hnext & _).
  split; [|exact Hoptions].
  apply Hnext; [vm_compute; reflexivity | cbn; lia].
Defined.

Lemma exact_counter_first_page : exact_counter Paging.first_page.
Proof. split; intros Hgt; vm_compute in Hgt; discriminate. Qed.

(** From the first of the two pages of the example, the whole sequence
    costs at most one request. *)
Lemma sequence_request_volume_witness :
  (calls (log (snd (@for_await Paging.host Paging.first_page 5
                      (asyncIterator Paging.first_page) Paging.world))) <= 0 + 1)%nat.
Proof.
  exact (@sequence_request_volume Paging.host Paging.first_page 5 Paging.world
           exact_counter_first_page).
Defined.

(** The sequence of the first page of the example ends. *)
Lemma sequence_ends_witness :
  exists enough, forall fuel, (enough <= fuel)%nat ->
    fst (@for_await Paging.host Paging.first_page fuel (asyncIterator Paging.first_page)
           Paging.world) <> OutOfFuel.
Proof.
  exact (@sequence_ends Paging.host Paging.first_page Paging.world exact_counter_first_page).
Defined.

Lemma reply_constant (response : Response) opts postData (n : nat) :
  @reply (Spins.host response) tt opts postData n = response.
Proof. induction n as [|n IH]; [reflexivity | exact IH]. Qed.

Lemma transmits_spinning (response : Response) :
  @transmits (Spins.host response) (export_call "tok" no_overrides) (Spins.world response)
             Polls.export_fetch None.
Proof. eexists _, _. split; reflexivity. Qed.

Lemma transmits_spinning_session (response : Response) :
  @transmits (Spins.host response) (session_call "sess" Polls.guard) (Spins.world response)
             Polls.session_fetch None.
Proof. eexists _, _. split; reflexivity. Qed.

Lemma stateless_not_found : @stateless (Spins.host Spins.not_found) Spins.not_found.
Proof.
  exists Spins.missing. split; [vm_compute; reflexivity|]. split; [discriminate|].
  repeat split.
Qed.

(** On a token that the server does not know, three rounds of [settled] are
    three fetches and no sleep, and the loop is still running. *)
Lemma settled_spins_without_state_witness :
  exists w',
    @ExportJob.settled (Spins.host Spins.not_found) 3 "tok" 30000 no_overrides
       (Spins.world Spins.not_found) = (OutOfFuel, w') /\
    log w' = [EvRequest Polls.export_fetch None; EvRequest Polls.export_fetch None;
              EvRequest Polls.export_fetch None].
Proof.
  eexists. apply (@settled_spins_without_state (Spins.host Spins.not_found) "tok" 30000
                    no_overrides Polls.export_fetch None 3%nat
                    (Spins.world Spins.not_found)).
  - apply transmits_spinning.
  - intros i. cbn [server Spins.world]. rewrite reply_constant. apply stateless_not_found.
Defined.

(** An export that stays pending keeps the loop running: two rounds are two
    fetches and two sleeps. *)
Lemma settled_has_no_timeout_witness :
  exists w',
    @ExportJob.settled (Spins.host Spins.pending) 2 "tok" 30000 no_overrides
       (Spins.world Spins.pending) = (OutOfFuel, w') /\
    log w' = [EvRequest Polls.export_fetch None; EvSleep 30000;
              EvRequest Polls.export_fetch None; EvSleep 30000].
Proof.
  apply (proj1 (@settled_has_no_timeout (Spins.host Spins.pending) 30000 no_overrides
                  Polls.export_fetch None 2%nat (Spins.world Spins.pending)) "tok").
  - apply transmits_spinning.
  - intros i. left. cbn [server Spins.world]. rewrite reply_constant.
    exists (Polls.in_state "pending"). split; vm_compute; reflexivity.
Defined.

(** A 200 without a content type ends the export loop with a [TypeError]. *)
Lemma settled_on_null_payload_witness :
  fst (@ExportJob.settled (Spins.host Spins.untyped) 1 "tok" 30000 no_overrides
         (Spins.world Spins.untyped)) = Throw TypeError.
Proof.
  rewrite (proj1 (@settled_on_null_payload (Spins.host Spins.untyped) 30000 no_overrides
                    (Spins.world Spins.untyped) Polls.export_fetch None 0%nat
                    eq_refl ltac:(unfold declares_JSON; vm_compute; discriminate))
                 "tok" (transmits_spinning _)).
  reflexivity.
Defined.

(** The body of a 404 is handed back as the settled session. *)
Lemma session_settles_on_any_payload_witness :
  fst (@Session.settled (Spins.host Spins.not_found) 1 "sess" 1000 Polls.guard
         (Spins.world Spins.not_found)) = Return Spins.missing.
Proof.
  rewrite (@session_settles_on_any_payload (Spins.host Spins.not_found) "sess" 1000
             Polls.guard (Spins.world Spins.not_found) Polls.session_fetch None 0%nat
             Spins.missing (transmits_spinning_session _)).
  - reflexivity.
  - vm_compute. reflexivity.
  - discriminate.
  - reflexivity.
Defined.

Lemma keyed_masking_event : keyed Masking.event.
Proof. unfold keyed. apply (bool_decide_unpack _). vm_compute. exact I. Qed.

(** An event that brings its own [timestamp] keeps it. *)
Lemma default_processor_fills_in_witness :
  Js.get (defaultEventProcessor "0f" "2020-01-01T12:00:00.000Z" Masking.event) "cased_id"
  = Some (JStr "0f").
Proof.
  apply (proj1 (proj2 (default_processor_fills_in "0f" "2020-01-01T12:00:00.000Z"
                         Masking.event keyed_masking_event))).
  reflexivity.
Defined.

(** The location of the outer context wins over that of the inner one. *)
Lemma context_precedence_witness :
  Js.get (Context.eventProcessor (Some [Worlds.outer; Worlds.inner]) Masking.event)
         "location" = Some (JStr "10.0.0.1").
Proof.
  rewrite (proj1 (context_precedence [Worlds.outer; Worlds.inner] Masking.event "location"
                    keyed_masking_event
                    ltac:(repeat constructor; apply (bool_decide_unpack _);
                          vm_compute; exact I))).
  reflexivity.
Defined.

(** A recorder receives the processed event and nothing is sent. *)
Lemma publish_processes_then_mocks_witness :
  @Events.publish Polls.host [defaultEventProcessor "0f" "t0"] None
     (Some (Events.Recorder [])) Masking.event no_overrides (Polls.world [])
  = (Return (Events.Mocked (Some [defaultEventProcessor "0f" "t0" Masking.event])),
     Polls.world []).
Proof.
  apply (proj1 (@publish_processes_then_mocks Polls.host [defaultEventProcessor "0f" "t0"]
                  None Masking.event no_overrides (Polls.world [])) []).
Defined.

(** The policy key of the environment authorizes the search. *)
Lemma environment_decides_witness :
  exists opts postData,
    @transmits (Replies.host Redirects.found []) Examples.search Worlds.loaded opts postData /\
    header opts "Authorization" = Some "Bearer cs_env_001".
Proof.
  apply (proj2 (@environment_decides (Replies.host Redirects.found []) Examples.search
                  Worlds.loaded eq_refl eq_refl) "cs_env_001").
  - vm_compute. reflexivity.
  - discriminate.
Defined.

(** The event of the test suite keeps its data under the mask. *)
Lemma masking_keeps_data_witness :
  Js.get (sensitiveField "username" Masking.event) "username" = Some (JStr "@username").
Proof.
  rewrite (proj1 (masking_keeps_data "username" Masking.event keyed_masking_event)
                 "username" ltac:(discriminate)).
  reflexivity.
Defined.

Lemma shallow_masking_event : shallow Masking.event.
Proof. unfold shallow. repeat constructor; right; exact I. Qed.

Lemma keyed_masking_greeting : keyed Masking.greeting.
Proof. unfold keyed. apply (bool_decide_unpack _). vm_compute. exact I. Qed.

(** A name of five characters, one of them of two bytes, is masked from 0
    to 5. *)
Lemma masking_marks_the_field_witness :
  exists p,
    masks (sensitiveField "name" Masking.greeting) = Some (JObj p) /\
    Js.get p "name" =
      Some (JArr [JObj [("label", JStr "name"); ("begin", JNum 0); ("end", JNum 5)]]).
Proof.
  apply (masking_marks_the_field "name" Masking.greeting Masking.accented
           keyed_masking_greeting).
  - unfold shallow. repeat constructor; right; exact I.
  - discriminate.
  - discriminate.
  - reflexivity.
Defined.

(** Masking the user name twice is masking it once. *)
Lemma masking_is_idempotent_witness :
  sensitiveField "username" (sensitiveField "username" Masking.event)
  = sensitiveField "username" Masking.event.
Proof. exact (masking_is_idempotent "username" Masking.event keyed_masking_event). Defined.

Lemma receives_spinning_create (response : Response) :
  @receives (Spins.host response) Worlds.create_call
            (@mkWorld (Spins.host response) tt Demo.config ∅ []) response.
Proof. eexists _, _. split; [eexists _, _; split|]; reflexivity. Qed.

(** A 404 with an [error] in its body is reported as a missing reason. *)
Lemma create_raises_on_any_error_witness :
  fst (@SessionCreate.create (Spins.host Spins.not_found) [] Polls.guard
         (Spins.world Spins.not_found)) = Throw ReasonRequiredError.
Proof.
  apply (proj1 (proj2 (@create_raises_on_any_error (Spins.host Spins.not_found) []
                         Polls.guard (Spins.world Spins.not_found) Spins.not_found
                         Spins.missing (receives_spinning_create _)
                         ltac:(vm_compute; reflexivity)))).
  - discriminate.
  - reflexivity.
Defined.

(** After a successful export the redirect gives the URL of the file; a 404
    in its place fails the assertion. *)
Lemma download_follows_settled_witness :
  fst (@Download.downloadURL Polls.host Some 1 "tok" 100 no_overrides Worlds.download)
  = Return "https://cased-exports.localhost/exports/tok.json" /\
  fst (@Download.downloadURL Polls.host Some 1 "tok" 100 no_overrides Worlds.no_download)
  = Throw (AssertionError "").
Proof.
  split.
  - pose proof (proj2 (@download_follows_settled Polls.host Some 1%nat "tok" 100
                         no_overrides Worlds.download)) as Hafter.
    assert (Hsettled : @ExportJob.settled Polls.host 1 "tok" 100 no_overrides Worlds.download
              = (Return tt,
                 snd (@ExportJob.settled Polls.host 1 "tok" 100 no_overrides Worlds.download)))
      by (vm_compute; reflexivity).
    assert (Hrx : @receives Polls.host (Download.call "tok" no_overrides)
                    (snd (@ExportJob.settled Polls.host 1 "tok" 100 no_overrides
                            Worlds.download)) Redirects.found)
      by (eexists _, _; split; [eexists _, _; split; reflexivity | vm_compute; reflexivity]).
    assert (Hct : ~ declares_JSON Redirects.found)
      by (unfold declares_JSON; vm_compute; discriminate).
    exact (proj1 (Hafter _ _ Hsettled Hrx Hct) _ eq_refl ltac:(vm_compute; reflexivity)).
  - pose proof (proj2 (@download_follows_settled Polls.host Some 1%nat "tok" 100
                         no_overrides Worlds.no_download)) as Hafter.
    assert (Hsettled : @ExportJob.settled Polls.host 1 "tok" 100 no_overrides
                         Worlds.no_download
              = (Return tt,
                 snd (@ExportJob.settled Polls.host 1 "tok" 100 no_overrides
                        Worlds.no_download)))
      by (vm_compute; reflexivity).
    assert (Hrx : @receives Polls.host (Download.call "tok" no_overrides)
                    (snd (@ExportJob.settled Polls.host 1 "tok" 100 no_overrides
                            Worlds.no_download)) (mkResponse 404 ∅ ""))
      by (eexists _, _; split; [eexists _, _; split; reflexivity | vm_compute; reflexivity]).
    assert (Hct : ~ declares_JSON (mkResponse 404 ∅ ""))
      by (unfold declares_JSON; vm_compute; discriminate).
    exact (proj2 (Hafter _ _ Hsettled Hrx Hct) eq_refl).
Defined.
